(** * scikit-fda: functional depth measures and elastic metrics

    A shallow embedding of

      - [skfda/exploratory/depth/_depth.py]
        ([IntegratedDepth], [BandDepth]) and
      - [skfda/misc/metrics/_elastic_metrics.py]
        ([fisher_rao_distance], [amplitude_distance], [phase_distance],
        [warping_distance]),

    together with the properties their documentation states.

    Numbers.  The depth module is embedded over the rationals [Q]: the
    code only compares, adds, multiplies and divides, so every definition
    runs.  The elastic metrics need square roots and arc cosines and are
    embedded over the reals [R], extended by one not-a-number value for
    what [numpy.sqrt] yields on a negative argument.  Rounding is not
    modelled in either module. *)

From Stdlib Require Import List Bool Arith ZArith QArith Qminmax Qfield Lia.
From Stdlib Require Import Reals Lra Permutation.
From Stdlib Require Lqa.
Import ListNotations.

(** ** Arrays *)

Module Numpy.

(** An n-dimensional array: its shape and its entries by multi-index
    (row-major).  One sample of an [FDataGrid]'s [data_matrix] has shape
    [(g_1, ..., g_k, m)]: the grid sizes, then the codomain dimension. *)
Record ndarray (A : Type) : Type := mk_ndarray
  { shape : list nat;
    item : list nat -> A }.

Arguments mk_ndarray {A} _ _.
Arguments shape {A} _.
Arguments item {A} _ _.

(** All multi-indices of a shape, in row-major order. *)
Fixpoint indices (s : list nat) : list (list nat) :=
  match s with
  | [] => [[]]
  | n :: s' => flat_map (fun i => map (cons i) (indices s')) (seq 0 n)
  end.

(** An elementwise binary operation on two arrays of one shape. *)
Definition elementwise {A B C} (op : A -> B -> C)
    (a : ndarray A) (b : ndarray B) : ndarray C :=
  {| shape := shape a;
     item := fun ix => op (item a ix) (item b ix) |}.

(** [a <= b], [a & b] and [a | b] on arrays. *)
Definition le (a b : ndarray Q) : ndarray bool := elementwise Qle_bool a b.
Definition and_ (a b : ndarray bool) : ndarray bool := elementwise andb a b.
Definition or_ (a b : ndarray bool) : ndarray bool := elementwise orb a b.

(** [a / c] for a scalar [c]. *)
Definition true_divide (a : ndarray Q) (c : Q) : ndarray Q :=
  {| shape := shape a;
     item := fun ix => item a ix / c |}.

(** [np.all] over every axis of one sample. *)
Definition all (a : ndarray bool) : bool :=
  forallb (item a) (indices (shape a)).

(** A column of values as an array of shape [(g, 1)]: a scalar-valued
    function on a one-dimensional grid. *)
Definition of_list (l : list Q) : ndarray Q :=
  {| shape := [length l; 1%nat];
     item := fun ix =>
       match ix with
       | [i; O] => nth i l 0
       | _ => 0
       end |}.

End Numpy.

(** ** Depth measures *)

Module Depth.

Import Numpy.

(** What the code consumes of the functional data container: the raw
    values (axis 0, the samples, is the list), the domain bounds and
    grid points of each domain dimension, and the codomain dimension. *)
Record FDataGrid : Type := mk_FDataGrid
  { data_matrix : list (ndarray Q);
    grid_points : list (list Q);
    domain_range : list (Q * Q);
    dim_codomain : nat }.

(** The exceptions the two estimators can raise. *)
Inductive exception : Type :=
| NotImplementedError   (* the explicit [raise] of [BandDepth.fit] *)
| AttributeError        (* a fitted attribute is read before [fit] *)
| IndexError            (* a subscript is out of range *)
| ValueError            (* an argument of the quadrature is rejected *)
| ZeroDivisionError.    (* [int / int] with a zero divisor *)

(** The exceptions that come from a [raise] statement of the module, as
    opposed to those raised by the interpreter while evaluating an
    expression. *)
Definition explicitly_raised (e : exception) : bool :=
  match e with
  | NotImplementedError => true
  | _ => false
  end.

(** *** Band depth *)

(** [itertools.combinations(l, 2)]: the pairs of [l], in the order of
    their positions. *)
Fixpoint combinations2 {A} (l : list A) : list (A * A) :=
  match l with
  | [] => []
  | x :: t => map (pair x) t ++ combinations2 t
  end.

(** The estimator: [_distribution] is set by [fit]. *)
Record BandDepth : Type := mk_BandDepth
  { _distribution : option FDataGrid }.

Definition BandDepth_init : BandDepth := {| _distribution := None |}.

Definition BandDepth_fit (self : BandDepth) (X : FDataGrid)
    : exception + BandDepth :=
  if negb (dim_codomain X =? 1)%nat then inl NotImplementedError
  else inr {| _distribution := Some X |}.

(** [num_in] starts as the Python integer 0 and becomes an integer array
    at the first [+=] with an array of booleans. *)
Inductive counter : Type :=
| PyInt (z : Z)
| IntArray (l : list Z).

Definition iadd (num_in : counter) (b : list bool) : counter :=
  match num_in with
  | PyInt z => IntArray (map (fun c => (z + Z.b2z c)%Z) b)
  | IntArray l =>
      IntArray (map (fun p => (fst p + Z.b2z (snd p))%Z) (combine l b))
  end.

(** The value of [num_in / n_total]. *)
Inductive quotient : Type :=
| PyFloat (q : Q)
| FloatArray (l : list Q).

(** [num_in / n_total]: between two Python integers a zero divisor
    raises; an array is divided entry by entry (where numpy would give
    nan or inf entries for a zero divisor, which [predict] never reaches:
    see [loop_counter_shape]). *)
Definition truediv (num_in : counter) (n_total : Z) : exception + quotient :=
  match num_in with
  | PyInt z =>
      if (n_total =? 0)%Z then inl ZeroDivisionError
      else inr (PyFloat (inject_Z z / inject_Z n_total))
  | IntArray l =>
      inr (FloatArray (map (fun z => inject_Z z / inject_Z n_total) l))
  end.

(** The three masks of one iteration, for the query samples [X] (the
    reference function is broadcast along axis 0). *)
Definition between_range_1 (f1 f2 : ndarray Q) (X : list (ndarray Q)) :=
  map (fun x => and_ (le f1 x) (le x f2)) X.

Definition between_range_2 (f1 f2 : ndarray Q) (X : list (ndarray Q)) :=
  map (fun x => and_ (le f2 x) (le x f1)) X.

Definition between_range (f1 f2 : ndarray Q) (X : list (ndarray Q)) :=
  map (fun p => or_ (fst p) (snd p))
      (combine (between_range_1 f1 f2 X) (between_range_2 f1 f2 X)).

(** One iteration of the loop of [predict] on [(num_in, n_total)]. *)
Definition predict_step (X : list (ndarray Q))
    (st : counter * Z) (pr : ndarray Q * ndarray Q) : counter * Z :=
  let '(num_in, n_total) := st in
  let '(f1, f2) := pr in
  (iadd num_in (map all (between_range f1 f2 X)), (n_total + 1)%Z).

Definition predict_loop (dist X : list (ndarray Q)) : counter * Z :=
  fold_left (predict_step X) (combinations2 dist) (PyInt 0, 0%Z).

Definition BandDepth_predict (self : BandDepth) (X : FDataGrid)
    : exception + quotient :=
  match _distribution self with
  | None => inl AttributeError
  | Some dist =>
      let '(num_in, n_total) :=
        predict_loop (data_matrix dist) (data_matrix X) in
      truediv num_in n_total
  end.

(** The example of the docstrings. *)
Definition example_rows : list (list Q) :=
  [ [1; 1; 2; 3; 5#2; 2];
    [1#2; 1#2; 1; 2; 3#2; 1];
    [-(1); -(1); -(1#2); 1; 1; 1#2];
    [-(1#2); -(1#2); -(1#2); -(1); -(1); -(1)] ].

Definition example_fd : FDataGrid :=
  {| data_matrix := map of_list example_rows;
     grid_points := [[0; 2; 4; 6; 8; 10]];
     domain_range := [(0, 10)];
     dim_codomain := 1 |}.

(** The band of the documentation, stated on its own: [x] lies in the
    band of [f1] and [f2] when at every grid point its value is between
    theirs, in either order. *)
Definition in_band (x f1 f2 : ndarray Q) : Prop :=
  forall ix, In ix (indices (shape x)) ->
    (item f1 ix <= item x ix /\ item x ix <= item f2 ix) \/
    (item f2 ix <= item x ix /\ item x ix <= item f1 ix).

Definition in_band_dec (x f1 f2 : ndarray Q) : bool :=
  forallb (fun ix => Qle_bool (Qmin (item f1 ix) (item f2 ix)) (item x ix)
                     && Qle_bool (item x ix) (Qmax (item f1 ix) (item f2 ix)))
          (indices (shape x)).

(** The unordered pairs of positions [i < j < n]. *)
Definition index_pairs (n : nat) : list (nat * nat) :=
  flat_map (fun i => map (pair i) (seq (S i) (n - S i))) (seq 0 n).

(** The number of pairs of reference functions whose band contains [x]. *)
Definition containing_pairs (dist : list (ndarray Q)) (x : ndarray Q) : nat :=
  length (filter (fun p =>
                    match nth_error dist (fst p), nth_error dist (snd p) with
                    | Some f1, Some f2 => in_band_dec x f1 f2
                    | _, _ => false
                    end)
                 (index_pairs (length dist))).

(** The binomial coefficient C(n, 2). *)
Definition choose2 (n : nat) : nat := (n * (n - 1) / 2)%nat.

(** The band depth of [x] in the sample [dist], as the documentation
    defines it. *)
Definition band_depth (dist : list (ndarray Q)) (x : ndarray Q) : Q :=
  inject_Z (Z.of_nat (containing_pairs dist x))
  / inject_Z (Z.of_nat (choose2 (length dist))).

(** The pairs among [ps] whose band contains [x]; the pair of functions
    at a pair of positions; and the sharing of one grid by the reference
    pairs and the queries. *)
Definition hits (ps : list (ndarray Q * ndarray Q)) (x : ndarray Q) : nat :=
  length (filter (fun p => in_band_dec x (fst p) (snd p)) ps).

Definition pair_at {A} (l : list A) (p : nat * nat) : option (A * A) :=
  match nth_error l (fst p), nth_error l (snd p) with
  | Some f1, Some f2 => Some (f1, f2)
  | _, _ => None
  end.

Definition same_shapes (ps : list (ndarray Q * ndarray Q))
    (X : list (ndarray Q)) : Prop :=
  forall p x, In p ps -> In x X -> shape (fst p) = shape x.

(** A reference sample of a single function. *)
Definition single_fd : FDataGrid :=
  {| data_matrix := [of_list [1; 1; 2; 3; 5#2; 2]];
     grid_points := [[0; 2; 4; 6; 8; 10]];
     domain_range := [(0, 10)];
     dim_codomain := 1 |}.

(** A sample of functions with values in the plane. *)
Definition vector_fd : FDataGrid :=
  {| data_matrix :=
       [ {| shape := [2%nat; 2%nat];
            item := fun ix => match ix with
                              | [i; j] => inject_Z (Z.of_nat (i + j))
                              | _ => 0
                              end |} ];
     grid_points := [[0; 1]];
     domain_range := [(0, 1)];
     dim_codomain := 2 |}.

(** *** Integrated depth *)

Definition bind {E A B} (m : E + A) (k : A -> E + B) : E + B :=
  match m with
  | inl e => inl e
  | inr a => k a
  end.

Notation "x <- m ;; k" := (bind m (fun x => k))
  (at level 61, m at next level, right associativity).

(** [[f(a) for a in l]] where [f] can raise. *)
Fixpoint traverse {E A B} (f : A -> E + B) (l : list A) : E + list B :=
  match l with
  | [] => inr []
  | a :: t => b <- f a ;; bs <- traverse f t ;; inr (b :: bs)
  end.

(** A quadrature rule as a weighted sum of the samples, the weights
    being computed from the abscissas. *)
Fixpoint weighted_sum (w y : list Q) : Q :=
  match w, y with
  | wi :: w', yi :: y' => wi * yi + weighted_sum w' y'
  | _, _ => 0
  end.

(** Simpson's rule on three abscissas, not necessarily equally spaced. *)
Definition simpson3_weights (x : list Q) : list Q :=
  match x with
  | [x0; x1; x2] =>
      let h0 := x1 - x0 in
      let h1 := x2 - x1 in
      [ (h0 + h1) / 6 * (2 - h1 / h0);
        (h0 + h1) / 6 * ((h0 + h1) * (h0 + h1) / (h0 * h1));
        (h0 + h1) / 6 * (2 - h0 / h1) ]
  | _ => []
  end.

Definition simpson3 (y x : list Q) : Q :=
  weighted_sum (simpson3_weights x) y.

Section IntegratedDepth.

(** The collaborators of [IntegratedDepth]: the multivariate depth
    (its state, [fit] and [predict]) and the one-dimensional
    quadrature [scipy.integrate.simps(y, x=x)]. *)
Variable mv_depth : Type.
Variable mv_fit : mv_depth -> list (ndarray Q) -> mv_depth.
Variable mv_predict : mv_depth -> list (ndarray Q) -> list (ndarray Q).
Variable simps_1d : list Q -> list Q -> Q.

Record IntegratedDepth : Type := mk_IntegratedDepth
  { multivariate_depth : mv_depth;
    _domain_range : option (list (Q * Q));
    _grid_points : option (list (list Q)) }.

Definition IntegratedDepth_init (multivariate_depth : mv_depth)
    : IntegratedDepth :=
  {| multivariate_depth := multivariate_depth;
     _domain_range := None;
     _grid_points := None |}.

Definition IntegratedDepth_fit (self : IntegratedDepth) (X : FDataGrid)
    : IntegratedDepth :=
  {| _domain_range := Some (domain_range X);
     _grid_points := Some (grid_points X);
     multivariate_depth :=
       mv_fit (multivariate_depth self) (data_matrix X) |}.

(** [simps(a, x=x, axis=1)] on one sample of the array: the quadrature
    along the sample's first axis, for every index of the others. *)
Definition simps_sample (x : list Q) (a : ndarray Q)
    : exception + ndarray Q :=
  match shape a with
  | [] => inl IndexError
  | n :: s' =>
      if negb (length x =? n)%nat then inl ValueError
      else inr {| shape := s';
                  item := fun ix =>
                    simps_1d (map (fun i => item a (i :: ix)) (seq 0 n)) x |}
  end.

Definition simps (integrand : list (ndarray Q)) (x : list Q)
    : exception + list (ndarray Q) :=
  traverse (simps_sample x) integrand.

(** [integrand /= interval_len]. *)
Definition idiv (integrand : list (ndarray Q)) (interval_len : Q)
    : list (ndarray Q) :=
  map (fun a => true_divide a interval_len) integrand.

(** The loop of [predict] over [zip(X.domain_range, X.grid_points)],
    on [(integrand, interval_len)]. *)
Fixpoint integrate_loop (ds : list ((Q * Q) * list Q))
    (integrand : list (ndarray Q)) (interval_len : Q)
    : exception + list (ndarray Q) :=
  match ds with
  | [] => inr integrand
  | (d, s) :: ds' =>
      integrand <- simps integrand s ;;
      let interval_len := snd d - fst d in
      let integrand := idiv integrand interval_len in
      integrate_loop ds' integrand interval_len
  end.

Definition IntegratedDepth_predict (self : IntegratedDepth) (X : FDataGrid)
    : exception + list (ndarray Q) :=
  let pointwise_depth :=
    mv_predict (multivariate_depth self) (data_matrix X) in
  match _domain_range self with
  | None => inl AttributeError
  | Some [] => inl IndexError
  | Some (d0 :: _) =>
      let interval_len := snd d0 - fst d0 in
      let integrand := pointwise_depth in
      integrate_loop (combine (domain_range X) (grid_points X))
                     integrand interval_len
  end.

(** The integral over the full domain: the quadrature over every
    domain dimension in turn, nothing divided. *)
Fixpoint full_integral (grids : list (list Q))
    (integrand : list (ndarray Q)) : exception + list (ndarray Q) :=
  match grids with
  | [] => inr integrand
  | s :: grids' =>
      integrand <- simps integrand s ;;
      full_integral grids' integrand
  end.

(** The product of the interval lengths. *)
Fixpoint volume (dr : list (Q * Q)) : Q :=
  match dr with
  | [] => 1
  | d :: dr' => (snd d - fst d) * volume dr'
  end.

End IntegratedDepth.

(** Two arrays with the same shape and, entry by entry, the same
    rational value. *)
Definition nd_equiv (a b : ndarray Q) : Prop :=
  shape a = shape b /\ forall ix, item a ix == item b ix.

(** The leading axes of [a] are those of the grids. *)
Definition has_grid_shape (grids : list (list Q)) (a : ndarray Q) : Prop :=
  exists rest, shape a = map (@length Q) grids ++ rest.

(** A surface on a 3 x 3 grid, for the examples: the depth values
    [i + 3 j] at the grid point [(i, j)]. *)
Definition example_surface : ndarray Q :=
  {| shape := [3%nat; 3%nat];
     item := fun ix =>
       match ix with
       | [i; j] => inject_Z (Z.of_nat (i + 3 * j))
       | _ => 0
       end |}.

Definition example_fd2 : FDataGrid :=
  {| data_matrix := [example_surface];
     grid_points := [[0; 1; 2]; [0; 2; 4]];
     domain_range := [(0, 2); (0, 4)];
     dim_codomain := 1 |}.

End Depth.

(** ** Elastic metrics *)

Module Elastic.

Local Open Scope R_scope.

(** A double as the code sees it: a real number, or the not-a-number
    that [numpy] operations yield outside their domain (with a warning,
    not an exception) and then propagate. *)
Inductive float64 : Type :=
| Fin (r : R)
| NaN.

Inductive exception : Type :=
| IndexError
| ValueError.

Definition bind {E A B} (m : E + A) (k : A -> E + B) : E + B :=
  match m with
  | inl e => inl e
  | inr a => k a
  end.

Notation "x <- m ;; k" := (bind m (fun x => k))
  (at level 61, m at next level, right associativity).

(** A sample of scalar functions on a one-dimensional grid:
    [data_matrix] holds one row of values per function ([[i, ..., 0]]
    of the array), [grid_points] is [grid_points[0]]. *)
Record FDataGrid : Type := mk_FDataGrid
  { data_matrix : list (list R);
    grid_points : list R;
    domain_range : R * R }.

(** [fd.copy(grid_points=..., domain_range=...)] and
    [fd.copy(data_matrix=...)]. *)
Definition copy (fd : FDataGrid) (gp : list R) (dr : R * R) : FDataGrid :=
  {| data_matrix := data_matrix fd;
     grid_points := gp;
     domain_range := dr |}.

Definition copy_data (fd : FDataGrid) (dm : list (list R)) : FDataGrid :=
  {| data_matrix := dm;
     grid_points := grid_points fd;
     domain_range := domain_range fd |}.

(** [a[0, ..., 0]]: the row of the first function. *)
Definition first_row (a : list (list R)) : exception + list float64 :=
  match a with
  | [] => inl IndexError
  | row :: _ => inr (map Fin row)
  end.

(** *** numpy on doubles *)

Definition np_sqrt (v : float64) : float64 :=
  match v with
  | Fin r => if Rlt_dec r 0 then NaN else Fin (sqrt r)
  | NaN => NaN
  end.

(** [a[a < 0] = 0] ([nan < 0] is false). *)
Definition zero_negatives (a : list float64) : list float64 :=
  map (fun v => match v with
                | Fin r => if Rlt_dec r 0 then Fin 0 else Fin r
                | NaN => NaN
                end) a.

Definition lift2 (op : R -> R -> R) (a b : float64) : float64 :=
  match a, b with
  | Fin x, Fin y => Fin (op x y)
  | _, _ => NaN
  end.

(** [np.multiply(a, b)] on two rows of one length. *)
Definition np_multiply (a b : list float64) : exception + list float64 :=
  if negb (length a =? length b)%nat then inl ValueError
  else inr (map (fun p => lift2 Rmult (fst p) (snd p)) (combine a b)).

Definition np_clip (v : float64) (lo hi : R) : float64 :=
  match v with
  | Fin r => Fin (Rmin (Rmax r lo) hi)
  | NaN => NaN
  end.

Definition np_arccos (v : float64) : float64 :=
  match v with
  | Fin r =>
      if Rlt_dec r (-1) then NaN
      else if Rlt_dec 1 r then NaN
      else Fin (acos r)
  | NaN => NaN
  end.

(** The real entries of a row, when it has no nan. *)
Fixpoint all_finite (a : list float64) : option (list R) :=
  match a with
  | [] => Some []
  | Fin r :: a' =>
      match all_finite a' with
      | Some rs => Some (r :: rs)
      | None => None
      end
  | NaN :: _ => None
  end.

(** A quadrature rule as a weighted sum of the samples. *)
Fixpoint weighted_sum (w y : list R) : R :=
  match w, y with
  | wi :: w', yi :: y' => wi * yi + weighted_sum w' y'
  | _, _ => 0
  end.

(** Simpson's rule on three abscissas, not necessarily equally spaced
    (the panel formula of the composite rule). *)
Definition simpson3_weights (x : list R) : list R :=
  match x with
  | [x0; x1; x2] =>
      let h0 := x1 - x0 in
      let h1 := x2 - x1 in
      [ (h0 + h1) / 6 * (2 - h1 / h0);
        (h0 + h1) / 6 * ((h0 + h1) * (h0 + h1) / (h0 * h1));
        (h0 + h1) / 6 * (2 - h0 / h1) ]
  | _ => []
  end.

Definition simpson3 (y x : list R) : R :=
  weighted_sum (simpson3_weights x) y.

(** Second-order finite differences on three equally spaced grid
    points: centred in the middle, one-sided at the two borders. *)
Definition second_order_differences (y x : list R) : list R :=
  match y, x with
  | [y0; y1; y2], [x0; _; x2] =>
      [ (- 3 * y0 + 4 * y1 - y2) / (x2 - x0);
        (y2 - y0) / (x2 - x0);
        (y0 - 4 * y1 + 3 * y2) / (x2 - x0) ]
  | _, _ => []
  end.

Definition second_order_derivative (fd : FDataGrid) : FDataGrid :=
  copy_data fd
    (map (fun row => second_order_differences row (grid_points fd))
         (data_matrix fd)).

Section Metrics.

(** The collaborators: validation and resampling of the two arguments,
    the affine rescaling of a grid and of a warping, the derivative of
    a sample and its evaluation at points, the elastic registration
    (template, penalty, output points, function) returning the
    registered function and the warping found, and the
    one-dimensional quadrature [scipy.integrate.simps(y, x=x)]. *)
Variable _cast_to_grid :
  FDataGrid -> FDataGrid -> exception + (FDataGrid * FDataGrid).
Variable _normalize_scale : list R -> list R.
Variable normalize_warping : FDataGrid -> R * R -> FDataGrid.
Variable derivative : FDataGrid -> FDataGrid.
Variable evaluate : FDataGrid -> list R -> list (list R).
Variable elastic_registration :
  FDataGrid -> R -> list R -> FDataGrid -> FDataGrid * FDataGrid.
Variable simps_1d : list R -> list R -> R.

(** [scipy.integrate.simps(y, x=x)] on a row of doubles. *)
Definition simps (y : list float64) (x : list R) : exception + float64 :=
  if negb (length x =? length y)%nat then inl ValueError
  else match all_finite y with
       | Some ys => inr (Fin (simps_1d ys x))
       | None => inr NaN
       end.

(** Modelled from the spec: the SRSF transform, which is not among the
    sources.  "A function derived from a base function's derivative,
    defined as sign(f') sqrt(|f'|)"; the transform keeps no state
    that its result depends on. *)
Definition srsf_value (v : R) : R :=
  if Rlt_dec v 0 then - sqrt (Rabs v) else sqrt (Rabs v).

Record SRSF : Type := mk_SRSF { initial_value : R }.

Definition SRSF_transform (self : SRSF) (X : FDataGrid) : FDataGrid :=
  copy_data X (map (map srsf_value) (data_matrix (derivative X))).

Definition SRSF_fit_transform (self : SRSF) (X : FDataGrid)
    : SRSF * FDataGrid :=
  (self, SRSF_transform self X).

(** Modelled from the spec: the L2 distance, which is not among the
    sources.  "Quadrature-integrated squared-difference,
    square-rooted", function by function. *)
Definition l2_distance (fdata1 fdata2 : FDataGrid) : list R :=
  map (fun rows =>
         sqrt (simps_1d
                 (map (fun v => (fst v - snd v) * (fst v - snd v))
                      (combine (fst rows) (snd rows)))
                 (grid_points fdata1)))
      (combine (data_matrix fdata1) (data_matrix fdata2)).

Definition fisher_rao_distance (fdata1 fdata2 : FDataGrid)
    : exception + list R :=
  casted <- _cast_to_grid fdata1 fdata2 ;;
  let '(fdata1, fdata2) := casted in
  let eval_points_normalized := _normalize_scale (grid_points fdata1) in
  let fdata1 := copy fdata1 eval_points_normalized (0, 1) in
  let fdata2 := copy fdata2 eval_points_normalized (0, 1) in
  let srsf := {| initial_value := 0 |} in
  let '(srsf, fdata1_srsf) := SRSF_fit_transform srsf fdata1 in
  let fdata2_srsf := SRSF_transform srsf fdata2 in
  inr (l2_distance fdata1_srsf fdata2_srsf).

Definition amplitude_distance (fdata1 fdata2 : FDataGrid) (lam : R)
    : exception + list float64 :=
  casted <- _cast_to_grid fdata1 fdata2 ;;
  let '(fdata1, fdata2) := casted in
  let eval_points_normalized := _normalize_scale (grid_points fdata1) in
  let fdata1 := copy fdata1 eval_points_normalized (0, 1) in
  let fdata2 := copy fdata2 eval_points_normalized (0, 1) in
  let '(fdata1_reg, warping_) :=
    elastic_registration fdata2 lam eval_points_normalized fdata1 in
  let srsf := {| initial_value := 0 |} in
  let '(srsf, fdata1_reg_srsf) := SRSF_fit_transform srsf fdata1_reg in
  let fdata2_srsf := SRSF_transform srsf fdata2 in
  let distance := map Fin (l2_distance fdata1_reg_srsf fdata2_srsf) in
  if Req_dec_T lam 0 then inr distance
  else
    let warping_deriv := derivative warping_ in
    penalty <- first_row (evaluate warping_deriv eval_points_normalized) ;;
    let penalty := map np_sqrt penalty in
    let penalty := map (fun v => lift2 Rminus v (Fin 1)) penalty in
    let penalty := map (fun v => lift2 Rmult v v) penalty in
    penalty <- simps penalty eval_points_normalized ;;
    inr (map (fun dist =>
                np_sqrt (lift2 Rplus (lift2 Rmult dist dist)
                                     (lift2 Rmult (Fin lam) penalty)))
             distance).

Definition phase_distance (fdata1 fdata2 : FDataGrid) (lam : R)
    : exception + float64 :=
  casted <- _cast_to_grid fdata1 fdata2 ;;
  let '(fdata1, fdata2) := casted in
  let eval_points_normalized := _normalize_scale (grid_points fdata1) in
  let fdata1 := copy fdata1 eval_points_normalized (0, 1) in
  let fdata2 := copy fdata2 eval_points_normalized (0, 1) in
  let '(_, warping_) :=
    elastic_registration fdata2 lam eval_points_normalized fdata1 in
  let warping_deriv := derivative warping_ in
  derivative_warping <-
    first_row (evaluate warping_deriv eval_points_normalized) ;;
  let derivative_warping := map np_sqrt derivative_warping in
  d <- simps derivative_warping eval_points_normalized ;;
  let d := np_clip d (-1) 1 in
  inr (np_arccos d).

(** The values of the derivative of the warping found by the
    registration, on the normalized grid, as [phase_distance] and
    [amplitude_distance] obtain them from the two functions that
    [_cast_to_grid] returned. *)
Definition warping_derivative_on_grid (fdata1 fdata2 : FDataGrid) (lam : R)
    : list (list R) :=
  let eval_points_normalized := _normalize_scale (grid_points fdata1) in
  let fdata1 := copy fdata1 eval_points_normalized (0, 1) in
  let fdata2 := copy fdata2 eval_points_normalized (0, 1) in
  evaluate
    (derivative
       (snd (elastic_registration fdata2 lam eval_points_normalized fdata1)))
    eval_points_normalized.

Definition warping_distance (warping1 warping2 : FDataGrid)
    : exception + float64 :=
  casted <- _cast_to_grid warping1 warping2 ;;
  let '(warping1, warping2) := casted in
  let warping1 := normalize_warping warping1 (0, 1) in
  let warping2 := normalize_warping warping2 (0, 1) in
  warping1_data <- first_row (data_matrix (derivative warping1)) ;;
  warping2_data <- first_row (data_matrix (derivative warping2)) ;;
  let warping1_data := zero_negatives warping1_data in
  let warping2_data := zero_negatives warping2_data in
  let srsf_warping1 := map np_sqrt warping1_data in
  let srsf_warping2 := map np_sqrt warping2_data in
  product <- np_multiply srsf_warping1 srsf_warping2 ;;
  d <- simps product (grid_points warping1) ;;
  let d := np_clip d (-1) 1 in
  inr (np_arccos d).

End Metrics.

(** The steps of the warping-space distance as the documentation lists
    them, on the two rows of derivative values and the grid. *)
Definition floored_srsf (v : R) : R := sqrt (Rmax 0 v).

Definition clamp (d : R) : R := Rmax (-1) (Rmin 1 d).

(** The integrand of [warping_distance]: the products of the square
    roots of the floored derivative values. *)
Definition srsf_product (d1 d2 : list R) : list R :=
  map (fun p => floored_srsf (fst p) * floored_srsf (snd p)) (combine d1 d2).

Definition warping_distance_formula (simps_1d : list R -> list R -> R)
    (deriv1 deriv2 grid : list R) : R :=
  acos (clamp (simps_1d (srsf_product deriv1 deriv2) grid)).

(** Collaborators for the examples: functions that are already on one
    grid, grids and warpings that are already on [0, 1], evaluation at
    the grid points themselves, and a registration that finds the
    warping [w]. *)
Definition cast_same_grid (fdata1 fdata2 : FDataGrid)
    : exception + (FDataGrid * FDataGrid) :=
  inr (fdata1, fdata2).

Definition scale_unit (x : list R) : list R := x.

Definition warping_unit (w : FDataGrid) (dr : R * R) : FDataGrid := w.

Definition evaluate_on_grid (fd : FDataGrid) (points : list R)
    : list (list R) :=
  data_matrix fd.

Definition registration_finding (w : FDataGrid)
    (template : FDataGrid) (penalty : R) (output_points : list R)
    (fd : FDataGrid) : FDataGrid * FDataGrid :=
  (fd, w).

(** A warping of [0, 1] that rises early, on three equally spaced grid
    points. *)
Definition early_warping : FDataGrid :=
  {| data_matrix := [[0; 9 / 10; 1]];
     grid_points := [0; 1 / 2; 1];
     domain_range := (0, 1) |}.

Definition ramp : FDataGrid :=
  {| data_matrix := [[0; 1; 4]];
     grid_points := [0; 1 / 2; 1];
     domain_range := (0, 1) |}.

End Elastic.

(** ** The amplitude distance in closed form *)

Module ElasticFormulas.

Import Elastic.
Local Open Scope R_scope.

Section Formulas.

Variable _normalize_scale : list R -> list R.
Variable derivative : FDataGrid -> FDataGrid.
Variable elastic_registration :
  FDataGrid -> R -> list R -> FDataGrid -> FDataGrid * FDataGrid.
Variable simps_1d : list R -> list R -> R.

(** The L2 distances between the SRSF of the registered first function
    and the SRSF of the second, as [amplitude_distance] obtains them from
    the two functions that [_cast_to_grid] returned. *)
Definition registered_distances (fdata1 fdata2 : FDataGrid) (lam : R)
    : list R :=
  let eval_points_normalized := _normalize_scale (grid_points fdata1) in
  let fdata1 := copy fdata1 eval_points_normalized (0, 1) in
  let fdata2 := copy fdata2 eval_points_normalized (0, 1) in
  let fdata1_reg :=
    fst (elastic_registration fdata2 lam eval_points_normalized fdata1) in
  let srsf := {| initial_value := 0 |} in
  l2_distance simps_1d
    (SRSF_transform derivative srsf fdata1_reg)
    (SRSF_transform derivative srsf fdata2).

(** The penalty of a warping with the derivative values [row] on
    [grid]: the quadrature of (sqrt(row) - 1)^2. *)
Definition warping_penalty (row grid : list R) : R :=
  simps_1d (map (fun t => (sqrt t - 1) * (sqrt t - 1)) row) grid.

End Formulas.

(** The identity warping of [0, 1], a warping that rises late and one
    that rises a little early, on three equally spaced grid points. *)
Definition identity_warping : FDataGrid :=
  {| data_matrix := [[0; 1 / 2; 1]];
     grid_points := [0; 1 / 2; 1];
     domain_range := (0, 1) |}.

Definition late_warping : FDataGrid :=
  {| data_matrix := [[0; 1 / 10; 1]];
     grid_points := [0; 1 / 2; 1];
     domain_range := (0, 1) |}.

Definition mild_warping : FDataGrid :=
  {| data_matrix := [[0; 3 / 5; 1]];
     grid_points := [0; 1 / 2; 1];
     domain_range := (0, 1) |}.

(** The slope, at each of three abscissas, of the parabola through three
    points: the second-order finite differences on grid points that need
    not be equally spaced. *)
Definition parabola_slope_left (x0 x1 x2 y0 y1 y2 : R) : R :=
  y0 * ((2 * x0 - x1 - x2) / ((x0 - x1) * (x0 - x2)))
  + y1 * ((x0 - x2) / ((x1 - x0) * (x1 - x2)))
  + y2 * ((x0 - x1) / ((x2 - x0) * (x2 - x1))).

Definition parabola_slope_mid (x0 x1 x2 y0 y1 y2 : R) : R :=
  y0 * ((x1 - x2) / ((x0 - x1) * (x0 - x2)))
  + y1 * ((2 * x1 - x0 - x2) / ((x1 - x0) * (x1 - x2)))
  + y2 * ((x1 - x0) / ((x2 - x0) * (x2 - x1))).

Definition parabola_slope_right (x0 x1 x2 y0 y1 y2 : R) : R :=
  y0 * ((x2 - x1) / ((x0 - x1) * (x0 - x2)))
  + y1 * ((x2 - x0) / ((x1 - x0) * (x1 - x2)))
  + y2 * ((2 * x2 - x0 - x1) / ((x2 - x0) * (x2 - x1))).

(** The differences at the grid points after the first: centred at the
    inner ones, one-sided at the last. *)
Fixpoint inner_and_last_differences (y x : list R) : list R :=
  match y, x with
  | [y0; y1; y2], [x0; x1; x2] =>
      [ parabola_slope_mid x0 x1 x2 y0 y1 y2;
        parabola_slope_right x0 x1 x2 y0 y1 y2 ]
  | y0 :: ((y1 :: y2 :: _) as y'), x0 :: ((x1 :: x2 :: _) as x') =>
      parabola_slope_mid x0 x1 x2 y0 y1 y2
      :: inner_and_last_differences y' x'
  | _, _ => []
  end.

Definition three_point_differences (y x : list R) : list R :=
  match y, x with
  | y0 :: y1 :: y2 :: _, x0 :: x1 :: x2 :: _ =>
      parabola_slope_left x0 x1 x2 y0 y1 y2
      :: inner_and_last_differences y x
  | _, _ => []
  end.

Definition three_point_derivative (fd : FDataGrid) : FDataGrid :=
  copy_data fd
    (map (fun row => three_point_differences row (grid_points fd))
         (data_matrix fd)).

(** The composite Simpson rule on an odd number of abscissas, not
    necessarily equally spaced: the sum of the rule on three abscissas
    over the successive panels. *)
Fixpoint simpson_composite (y x : list R) : R :=
  match y, x with
  | y0 :: y1 :: ((y2 :: _) as y'), x0 :: x1 :: ((x2 :: _) as x') =>
      simpson3 [y0; y1; y2] [x0; x1; x2] + simpson_composite y' x'
  | _, _ => 0
  end.

(** A warping of [0, 1] that reaches 1 at the third of five grid points,
    the fourth close to it and the last far. *)
Definition plateau_warping : FDataGrid :=
  {| data_matrix := [[0; 1 / 2; 1; 1; 1]];
     grid_points := [0; 1 / 10; 1 / 5; 3 / 10; 1];
     domain_range := (0, 1) |}.

End ElasticFormulas.

(** ** The integral over the full domain *)

Module DepthFormulas.

(** The integral over the full domain of the function that has the value
    [f ix] at the grid point of index [ix]: the quadrature along the
    first axis, for every index of the other axes, then along the
    second, and so on.  Nothing is divided. *)
Fixpoint multiple_integral (simps_1d : list Q -> list Q -> Q)
    (grids : list (list Q)) (f : list nat -> Q) : list nat -> Q :=
  match grids with
  | [] => f
  | s :: grids' =>
      multiple_integral simps_1d grids'
        (fun ix => simps_1d (map (fun i => f (i :: ix)) (seq 0 (length s))) s)
  end.

End DepthFormulas.

(** ** The estimators as objects *)

Module DepthObjects.

Import Numpy Depth.

(** Every entry of an array lies between two bounds. *)
Definition entries_within (lo hi : Q) (a : ndarray Q) : Prop :=
  forall ix, In ix (indices (shape a)) -> lo <= item a ix /\ item a ix <= hi.

(** On the grid [s] of the interval [d], the quadrature of samples
    between two bounds lies between the bounds times the length of the
    interval (as for a rule with weights that are not negative and that
    integrates constants exactly). *)
Definition quadrature_within (simps_1d : list Q -> list Q -> Q)
    (d : Q * Q) (s : list Q) : Prop :=
  fst d < snd d /\
  forall (y : list Q) (lo hi : Q),
    length y = length s ->
    Forall (fun v => lo <= v /\ v <= hi) y ->
    lo * (snd d - fst d) <= simps_1d y s /\
    simps_1d y s <= hi * (snd d - fst d).

Section Objects.

(** The multivariate depths: their state, [fit], [predict], the
    properties [max] and [min], and the states of a new
    [_UnivariateFraimanMuniz()] and of a new [SimplicialDepth()]. *)
Variable mv_depth : Type.
Variable mv_fit : mv_depth -> list (ndarray Q) -> mv_depth.
Variable mv_predict : mv_depth -> list (ndarray Q) -> list (ndarray Q).
Variable mv_max : mv_depth -> Q.
Variable mv_min : mv_depth -> Q.
Variable simps_1d : list Q -> list Q -> Q.
Variable fraiman_muniz : mv_depth.
Variable simplicial : mv_depth.

(** The multivariate depth objects by address, and the next free
    address.  [fit] of a multivariate depth works in place: its result is
    dropped by [IntegratedDepth.fit]. *)
Record heap : Type := mk_heap
  { cell : nat -> mv_depth;
    next : nat }.

(** The default value of the parameter [multivariate_depth] of
    [IntegratedDepth.__init__] is evaluated once, when the class is
    defined: one object, here at address 0. *)
Definition default_multivariate_depth : nat := 0%nat.

Definition heap_at_import : heap :=
  {| cell := fun _ => fraiman_muniz;
     next := 1%nat |}.

Definition store (h : heap) (a : nat) (v : mv_depth) : heap :=
  {| cell := fun b => if (b =? a)%nat then v else cell h b;
     next := next h |}.

Definition allocate (h : heap) (v : mv_depth) : heap * nat :=
  ({| cell := fun b => if (b =? next h)%nat then v else cell h b;
      next := S (next h) |},
   next h).

(** An estimator: the address of its multivariate depth, and what [fit]
    recorded. *)
Record estimator : Type := mk_estimator
  { multivariate_depth_at : nat;
    fitted_domain_range : option (list (Q * Q));
    fitted_grid_points : option (list (list Q)) }.

(** [IntegratedDepth(multivariate_depth=...)], the argument being left
    out or the address of an object. *)
Definition IntegratedDepth_new (multivariate_depth : option nat) : estimator :=
  {| multivariate_depth_at :=
       match multivariate_depth with
       | Some a => a
       | None => default_multivariate_depth
       end;
     fitted_domain_range := None;
     fitted_grid_points := None |}.

(** [ModifiedBandDepth()]: a new [SimplicialDepth()] each time. *)
Definition ModifiedBandDepth_new (h : heap) : heap * estimator :=
  let '(h, a) := allocate h simplicial in
  (h, IntegratedDepth_new (Some a)).

(** The estimator with the state of its multivariate depth in place of
    the address. *)
Definition view (h : heap) (self : estimator) : IntegratedDepth mv_depth :=
  {| multivariate_depth := cell h (multivariate_depth_at self);
     _domain_range := fitted_domain_range self;
     _grid_points := fitted_grid_points self |}.

Definition fit (h : heap) (self : estimator) (X : FDataGrid)
    : heap * estimator :=
  (store h (multivariate_depth_at self)
     (mv_fit (cell h (multivariate_depth_at self)) (data_matrix X)),
   {| multivariate_depth_at := multivariate_depth_at self;
      fitted_domain_range := Some (domain_range X);
      fitted_grid_points := Some (grid_points X) |}).

Definition predict (h : heap) (self : estimator) (X : FDataGrid)
    : exception + list (ndarray Q) :=
  IntegratedDepth_predict mv_depth mv_predict simps_1d (view h self) X.

(** The properties [max] and [min]. *)
Definition max (h : heap) (self : estimator) : Q :=
  mv_max (cell h (multivariate_depth_at self)).

Definition min (h : heap) (self : estimator) : Q :=
  mv_min (cell h (multivariate_depth_at self)).

End Objects.

End DepthObjects.

(** ** Properties of the depth measures *)

Module DepthProofs.

Import Numpy Depth DepthFormulas.

(** *** The band test *)

Lemma between_bool (a b x : Q) :
  (Qle_bool a x && Qle_bool x b) || (Qle_bool b x && Qle_bool x a)
  = Qle_bool (Qmin a b) x && Qle_bool x (Qmax a b).
Proof.
  apply Bool.eq_iff_eq_true.
  rewrite orb_true_iff, !andb_true_iff, !Qle_bool_iff.
  rewrite Q.min_le_iff, Q.max_le_iff.
  split.
  - intros [[H1 H2] | [H1 H2]]; auto.
  - intros [[Ha | Hb] [Ha' | Hb']]; auto.
    + destruct (Qlt_le_dec b x) as [Hlt | Hle]; auto.
      right. split; auto. apply Qlt_le_weak; exact Hlt.
    + destruct (Qlt_le_dec a x) as [Hlt | Hle]; auto.
      left. split; auto. apply Qlt_le_weak; exact Hlt.
Qed.

Lemma in_band_dec_iff (x f1 f2 : ndarray Q) :
  in_band_dec x f1 f2 = true <-> in_band x f1 f2.
Proof.
  unfold in_band_dec, in_band.
  rewrite forallb_forall.
  split; intros H ix Hix; specialize (H ix Hix).
  - rewrite <- between_bool in H.
    rewrite orb_true_iff, !andb_true_iff, !Qle_bool_iff in H.
    exact H.
  - rewrite <- between_bool.
    rewrite orb_true_iff, !andb_true_iff, !Qle_bool_iff.
    exact H.
Qed.

Lemma forallb_pointwise {A} (f g : A -> bool) (l : list A) :
  (forall a, f a = g a) -> forallb f l = forallb g l.
Proof.
  intros Hfg. induction l as [| a l IH]; simpl.
  - reflexivity.
  - rewrite Hfg, IH. reflexivity.
Qed.

Lemma all_mask (f1 f2 x : ndarray Q) :
  shape f1 = shape x ->
  all (or_ (and_ (le f1 x) (le x f2)) (and_ (le f2 x) (le x f1)))
  = in_band_dec x f1 f2.
Proof.
  intros Hs. unfold all, in_band_dec. simpl. rewrite Hs.
  apply forallb_pointwise. intros ix. apply between_bool.
Qed.

Lemma combine_map_same {A B C} (g : A -> B) (h : A -> C) (l : list A) :
  combine (map g l) (map h l) = map (fun a => (g a, h a)) l.
Proof.
  induction l as [| a l IH]; simpl; [reflexivity | now rewrite IH].
Qed.

Lemma masks_of_queries (f1 f2 : ndarray Q) (X : list (ndarray Q)) :
  map all (between_range f1 f2 X)
  = map (fun x =>
           all (or_ (and_ (le f1 x) (le x f2)) (and_ (le f2 x) (le x f1))))
        X.
Proof.
  unfold between_range, between_range_1, between_range_2.
  rewrite combine_map_same, !map_map. reflexivity.
Qed.

(** *** The loop of [BandDepth.predict] *)

Lemma step_on_array (X : list (ndarray Q)) (g : ndarray Q -> Z) (n : Z)
    (f1 f2 : ndarray Q) :
  (forall x, In x X -> shape f1 = shape x) ->
  predict_step X (IntArray (map g X), n) (f1, f2)
  = (IntArray (map (fun x => (g x + Z.b2z (in_band_dec x f1 f2))%Z) X),
     (n + 1)%Z).
Proof.
  intros Hs. unfold predict_step, iadd.
  rewrite masks_of_queries, combine_map_same, map_map. simpl.
  f_equal. f_equal. apply map_ext_in. intros x Hx.
  rewrite all_mask by (apply Hs; exact Hx). reflexivity.
Qed.

Lemma loop_on_array (X : list (ndarray Q)) :
  forall ps g n,
    same_shapes ps X ->
    fold_left (predict_step X) ps (IntArray (map g X), n)
    = (IntArray (map (fun x => (g x + Z.of_nat (hits ps x))%Z) X),
       (n + Z.of_nat (length ps))%Z).
Proof.
  induction ps as [| [f1 f2] ps IH]; intros g n Hs.
  - simpl. f_equal; [f_equal | lia].
    apply map_ext. intros x. unfold hits. simpl. lia.
  - cbn [fold_left].
    rewrite step_on_array
      by (intros x Hx; apply (Hs (f1, f2) x); [left; reflexivity | exact Hx]).
    rewrite IH by (intros p x Hp Hx; apply Hs; [right; exact Hp | exact Hx]).
    f_equal; [f_equal | cbn [length]; lia].
    apply map_ext. intros x. unfold hits. cbn [filter fst snd].
    destruct (in_band_dec x f1 f2); cbn [length Z.b2z]; lia.
Qed.

Lemma first_step (X : list (ndarray Q)) (f1 f2 : ndarray Q) :
  (forall x, In x X -> shape f1 = shape x) ->
  predict_step X (PyInt 0, 0%Z) (f1, f2)
  = (IntArray (map (fun x => (0 + Z.b2z (in_band_dec x f1 f2))%Z) X), 1%Z).
Proof.
  intros Hs. unfold predict_step, iadd.
  rewrite masks_of_queries, map_map. f_equal. f_equal.
  apply map_ext_in. intros x Hx.
  rewrite all_mask by (apply Hs; exact Hx). reflexivity.
Qed.

(** After at least one iteration [num_in] is an array and [n_total]
    counts the iterations; before, both are the integer 0. *)
Lemma loop_counter_shape (X : list (ndarray Q))
    (ps : list (ndarray Q * ndarray Q)) :
  same_shapes ps X ->
  fold_left (predict_step X) ps (PyInt 0, 0%Z)
  = match ps with
    | [] => (PyInt 0, 0%Z)
    | _ :: _ =>
        (IntArray (map (fun x => Z.of_nat (hits ps x)) X),
         Z.of_nat (length ps))
    end.
Proof.
  destruct ps as [| [f1 f2] ps]; intros Hs.
  - reflexivity.
  - cbn [fold_left].
    rewrite first_step
      by (intros x Hx; apply (Hs (f1, f2) x); [left; reflexivity | exact Hx]).
    rewrite loop_on_array
      by (intros p x Hp Hx; apply Hs; [right; exact Hp | exact Hx]).
    f_equal; [f_equal | cbn [length]; lia].
    apply map_ext. intros x. unfold hits. cbn [filter fst snd].
    destruct (in_band_dec x f1 f2); cbn [length Z.b2z]; lia.
Qed.

(** *** Pairs by position *)

Lemma length_combinations2 {A} (l : list A) :
  (2 * length (combinations2 l) = length l * (length l - 1))%nat.
Proof.
  induction l as [| a l IH]; simpl.
  - reflexivity.
  - rewrite length_app, length_map. rewrite Nat.sub_0_r.
    destruct l as [| b l]; simpl in *; [reflexivity | nia].
Qed.

Lemma length_combinations2_choose {A} (l : list A) :
  length (combinations2 l) = choose2 (length l).
Proof.
  unfold choose2. rewrite <- length_combinations2.
  rewrite Nat.mul_comm, Nat.div_mul by discriminate. reflexivity.
Qed.

Lemma combinations2_In {A} (l : list A) (p : A * A) :
  In p (combinations2 l) -> In (fst p) l /\ In (snd p) l.
Proof.
  induction l as [| a l IH]; simpl; [tauto |].
  rewrite in_app_iff, in_map_iff.
  intros [[b [<- Hb]] | H]; simpl; [tauto |].
  destruct (IH H); tauto.
Qed.

Lemma nth_error_window {A} (l : list A) :
  forall pre,
    map (nth_error (pre ++ l)) (seq (length pre) (length l)) = map Some l.
Proof.
  induction l as [| a l IH]; intros pre; simpl.
  - reflexivity.
  - f_equal.
    + rewrite nth_error_app2, Nat.sub_diag by lia. reflexivity.
    + specialize (IH (pre ++ [a])).
      rewrite <- app_assoc, length_app in IH. simpl in IH.
      rewrite Nat.add_1_r in IH. exact IH.
Qed.

Lemma pairs_window {A} (l : list A) :
  forall pre,
    map (pair_at (pre ++ l))
        (flat_map (fun i => map (pair i)
                                (seq (S i) (length pre + length l - S i)))
                  (seq (length pre) (length l)))
    = map Some (combinations2 l).
Proof.
  induction l as [| a l IH]; intros pre.
  - reflexivity.
  - cbn [length seq flat_map combinations2].
    rewrite !map_app. f_equal.
    + replace (length pre + S (length l) - S (length pre))%nat
        with (length l) by lia.
      rewrite !map_map. unfold pair_at. cbn [fst snd].
      rewrite nth_error_app2, Nat.sub_diag by lia. cbn [nth_error].
      pose proof (nth_error_window l (pre ++ [a])) as Hw.
      rewrite <- app_assoc, length_app in Hw. cbn [length app] in Hw.
      rewrite Nat.add_1_r in Hw.
      rewrite <- (map_map Some (fun b => match b with
                                          | Some f2 => Some (a, f2)
                                          | None => None
                                          end)).
      rewrite <- Hw, map_map. reflexivity.
    + specialize (IH (pre ++ [a])).
      rewrite <- app_assoc, length_app in IH. cbn [length app] in IH.
      rewrite Nat.add_1_r in IH.
      rewrite <- IH. f_equal. apply flat_map_ext. intros i.
      f_equal. f_equal. lia.
Qed.

Lemma length_filter_map {A B} (g : A -> B) (f : B -> bool) (l : list A) :
  length (filter f (map g l)) = length (filter (fun a => f (g a)) l).
Proof.
  induction l as [| a l IH]; simpl; [reflexivity |].
  destruct (f (g a)); simpl; now rewrite IH.
Qed.

Lemma containing_pairs_hits (dist : list (ndarray Q)) (x : ndarray Q) :
  containing_pairs dist x = hits (combinations2 dist) x.
Proof.
  unfold containing_pairs, hits.
  pose proof (pairs_window dist []) as Hw. cbn [app length Nat.add] in Hw.
  transitivity
    (length (filter (fun o : option (ndarray Q * ndarray Q) =>
                       match o with
                       | Some p => in_band_dec x (fst p) (snd p)
                       | None => false
                       end)
                    (map (pair_at dist) (index_pairs (length dist))))).
  - rewrite length_filter_map. f_equal. apply filter_ext.
    intros [i j]. unfold pair_at. cbn [fst snd].
    destruct (nth_error dist i), (nth_error dist j); reflexivity.
  - unfold index_pairs. rewrite Hw, length_filter_map. reflexivity.
Qed.

(** *** The claims on band depth *)

(** C1.  For a [BandDepth] fitted on a reference sample of at least two
    functions, and queries on the grid of the reference sample,
    [predict] returns for every query the number of unordered pairs of
    reference functions whose band contains the query at every grid
    point (in either order of the pair), divided by the number C(N, 2)
    of all pairs.  ([in_band_dec] decides [in_band]: see
    [in_band_dec_iff].) *)
Theorem BandDepth_predict_fraction (self : BandDepth) (dist X : FDataGrid) :
  _distribution self = Some dist ->
  (2 <= length (data_matrix dist))%nat ->
  (forall f x, In f (data_matrix dist) -> In x (data_matrix X) ->
               shape f = shape x) ->
  BandDepth_predict self X
  = inr (FloatArray (map (band_depth (data_matrix dist)) (data_matrix X))).
Proof.
  intros Hfit HN Hshape. unfold BandDepth_predict. rewrite Hfit.
  unfold predict_loop.
  assert (Hs : same_shapes (combinations2 (data_matrix dist))
                           (data_matrix X)).
  { intros p x Hp Hx. apply Hshape; [| exact Hx].
    apply (combinations2_In _ _ Hp). }
  rewrite (loop_counter_shape _ _ Hs).
  pose proof (length_combinations2_choose (data_matrix dist)) as Hlen.
  destruct (combinations2 (data_matrix dist)) as [| p ps] eqn:Hps.
  - exfalso. pose proof (length_combinations2 (data_matrix dist)) as H2.
    rewrite Hps in H2. simpl in H2. nia.
  - unfold truediv. rewrite map_map. f_equal. f_equal.
    apply map_ext. intros x. unfold band_depth.
    rewrite containing_pairs_hits, Hps, <- Hlen. reflexivity.
Qed.

Lemma BandDepth_predict_fraction_witness :
  BandDepth_predict {| _distribution := Some example_fd |} example_fd
  = inr (FloatArray (map (band_depth (data_matrix example_fd))
                         (data_matrix example_fd))).
Proof.
  apply (BandDepth_predict_fraction
           {| _distribution := Some example_fd |} example_fd example_fd).
  - reflexivity.
  - simpl. lia.
  - intros f x Hf Hx. simpl in Hf, Hx.
    repeat (destruct Hf as [<- | Hf]; [| try contradiction]);
      repeat (destruct Hx as [<- | Hx]; [| try contradiction]);
      reflexivity.
Defined.

(** C6.  [BandDepth.fit] raises when the codomain dimension of the
    sample is not 1, so functions with vector values are never
    accepted; otherwise it stores the reference sample and succeeds. *)
Theorem BandDepth_fit_codomain (self : BandDepth) (X : FDataGrid) :
  (dim_codomain X <> 1%nat ->
   BandDepth_fit self X = inl NotImplementedError) /\
  (dim_codomain X = 1%nat ->
   BandDepth_fit self X = inr {| _distribution := Some X |}).
Proof.
  unfold BandDepth_fit. split; intros H.
  - apply Nat.eqb_neq in H. rewrite H. reflexivity.
  - apply Nat.eqb_eq in H. rewrite H. reflexivity.
Qed.

Lemma BandDepth_fit_codomain_witness :
  BandDepth_fit BandDepth_init vector_fd = inl NotImplementedError /\
  BandDepth_fit BandDepth_init example_fd
  = inr {| _distribution := Some example_fd |}.
Proof.
  split.
  - apply (proj1 (BandDepth_fit_codomain BandDepth_init vector_fd)).
    simpl. discriminate.
  - apply (proj2 (BandDepth_fit_codomain BandDepth_init example_fd)).
    reflexivity.
Defined.

(** C8.  On the sample of four curves of the docstring, fitting
    [BandDepth] and predicting the same sample gives the depths
    1/2, 5/6, 1/2, 1/2. *)
Theorem BandDepth_docstring_example :
  exists fitted depths,
    BandDepth_fit BandDepth_init example_fd = inr fitted /\
    BandDepth_predict fitted example_fd = inr (FloatArray depths) /\
    Forall2 Qeq depths [1#2; 5#6; 1#2; 1#2].
Proof.
  eexists. eexists. split; [reflexivity |]. split.
  - vm_compute. reflexivity.
  - repeat constructor.
Qed.

(** C9, as the code has it.  For a [BandDepth] fitted on fewer than two
    functions, [predict] fails with the [ZeroDivisionError] of the
    division [num_in / n_total] of two Python integers, both 0: no
    iteration has run, no validation is made, and no array of nan or
    inf is returned. *)
Theorem BandDepth_predict_too_few (self : BandDepth) (dist X : FDataGrid) :
  _distribution self = Some dist ->
  (length (data_matrix dist) < 2)%nat ->
  BandDepth_predict self X = inl ZeroDivisionError.
Proof.
  intros Hfit HN. unfold BandDepth_predict, predict_loop. rewrite Hfit.
  destruct (data_matrix dist) as [| f [| g l]]; simpl in *;
    [reflexivity | reflexivity | lia].
Qed.

Lemma BandDepth_predict_too_few_witness :
  BandDepth_predict {| _distribution := Some single_fd |} example_fd
  = inl ZeroDivisionError.
Proof.
  apply (BandDepth_predict_too_few
           {| _distribution := Some single_fd |} single_fd example_fd).
  - reflexivity.
  - simpl. lia.
Defined.

(** C9, as stated, fails: on a reference sample of one function the
    error of [predict] is not one that the module raises itself. *)
Lemma BandDepth_predict_no_validation :
  ~ (exists e,
       BandDepth_predict {| _distribution := Some single_fd |} example_fd
       = inl e /\
       explicitly_raised e = true).
Proof.
  intros [e [He Hraised]]. vm_compute in He.
  injection He as <-. discriminate Hraised.
Qed.

(** *** Integrated depth *)

Lemma nd_equiv_refl (a : ndarray Q) : nd_equiv a a.
Proof. split; [reflexivity | intros ix; reflexivity]. Qed.

Lemma nd_equiv_sym (a b : ndarray Q) : nd_equiv a b -> nd_equiv b a.
Proof.
  intros [Hs Hi]. split; [now symmetry | intros ix; now symmetry].
Qed.

Lemma nd_equiv_trans (a b c : ndarray Q) :
  nd_equiv a b -> nd_equiv b c -> nd_equiv a c.
Proof.
  intros [Hs Hi] [Hs' Hi'].
  split; [congruence | intros ix; now rewrite Hi, Hi'].
Qed.

Lemma all_equiv_refl (A : list (ndarray Q)) : Forall2 nd_equiv A A.
Proof.
  induction A; constructor; [apply nd_equiv_refl | assumption].
Qed.

Lemma all_equiv_sym (A B : list (ndarray Q)) :
  Forall2 nd_equiv A B -> Forall2 nd_equiv B A.
Proof.
  induction 1; constructor; [apply nd_equiv_sym |]; assumption.
Qed.

Lemma all_equiv_trans (A B C : list (ndarray Q)) :
  Forall2 nd_equiv A B -> Forall2 nd_equiv B C -> Forall2 nd_equiv A C.
Proof.
  intros HAB. revert C.
  induction HAB as [| a b A B Hab HAB IH]; intros C HBC;
    inversion HBC; subst; constructor.
  - eapply nd_equiv_trans; eassumption.
  - apply IH. assumption.
Qed.

Lemma true_divide_equiv (a b : ndarray Q) (c : Q) :
  nd_equiv a b -> nd_equiv (true_divide a c) (true_divide b c).
Proof.
  intros [Hs Hi]. split; [exact Hs |].
  intros ix. simpl. rewrite Hi. reflexivity.
Qed.

Lemma true_divide_twice (a : ndarray Q) (c k : Q) :
  ~ c == 0 -> ~ k == 0 ->
  nd_equiv (true_divide (true_divide a c) k) (true_divide a (c * k)).
Proof.
  intros Hc Hk. split; [reflexivity |].
  intros ix. simpl. field. split; assumption.
Qed.

Lemma samples_pointwise (f g : nat -> Q) (l : list nat) :
  (forall i, f i == g i) -> Forall2 Qeq (map f l) (map g l).
Proof.
  intros H. induction l; simpl; constructor; [apply H | assumption].
Qed.

Section IntegratedDepthProofs.

Variable mv_depth : Type.
Variable mv_fit : mv_depth -> list (ndarray Q) -> mv_depth.
Variable mv_predict : mv_depth -> list (ndarray Q) -> list (ndarray Q).
Variable simps_1d : list Q -> list Q -> Q.

Lemma integrate_loop_overwrites ds (A : list (ndarray Q)) (l1 l2 : Q) :
  integrate_loop simps_1d ds A l1 = integrate_loop simps_1d ds A l2.
Proof. destruct ds as [| [d s] ds]; reflexivity. Qed.

(** C10.  The result of [IntegratedDepth.predict] does not depend on
    the domain range and grid points recorded by [fit]: two
    estimators fitted (on samples with a domain of dimension at least
    one) so that their multivariate depths are in the same state
    return the same result on every query. *)
Theorem IntegratedDepth_predict_ignores_fitted_domain
    (self1 self2 : IntegratedDepth mv_depth) (X1 X2 X : FDataGrid) :
  domain_range X1 <> [] ->
  domain_range X2 <> [] ->
  multivariate_depth _ (IntegratedDepth_fit _ mv_fit self1 X1)
  = multivariate_depth _ (IntegratedDepth_fit _ mv_fit self2 X2) ->
  IntegratedDepth_predict _ mv_predict simps_1d
    (IntegratedDepth_fit _ mv_fit self1 X1) X
  = IntegratedDepth_predict _ mv_predict simps_1d
      (IntegratedDepth_fit _ mv_fit self2 X2) X.
Proof.
  intros H1 H2 Hmv. unfold IntegratedDepth_predict.
  rewrite Hmv. cbn [_domain_range IntegratedDepth_fit].
  destruct (domain_range X1) as [| d1 r1]; [contradiction |].
  destruct (domain_range X2) as [| d2 r2]; [contradiction |].
  apply integrate_loop_overwrites.
Qed.

(** The quadrature is homogeneous, and does not tell equal rationals
    apart. *)
Hypothesis simps_1d_scale : forall (c : Q) (y x : list Q),
  ~ c == 0 ->
  simps_1d (map (fun v => v / c) y) x == simps_1d y x / c.
Hypothesis simps_1d_proper : forall (y y' x : list Q),
  Forall2 Qeq y y' -> simps_1d y x == simps_1d y' x.

Lemma simps_sample_equiv (x : list Q) (a b a' : ndarray Q) :
  nd_equiv a b ->
  simps_sample simps_1d x a = inr a' ->
  exists b', simps_sample simps_1d x b = inr b' /\ nd_equiv a' b'.
Proof.
  intros [Hs Hi]. unfold simps_sample. rewrite <- Hs.
  destruct (shape a) as [| n s']; [discriminate |].
  destruct (negb (length x =? n)%nat); [discriminate |].
  intros H. injection H as <-.
  eexists. split; [reflexivity |]. split; [reflexivity |].
  intros ix. simpl. apply simps_1d_proper.
  apply samples_pointwise. intros i. apply Hi.
Qed.

Lemma simps_equiv (x : list Q) (A B : list (ndarray Q)) :
  Forall2 nd_equiv A B ->
  forall A', simps simps_1d A x = inr A' ->
  exists B', simps simps_1d B x = inr B' /\ Forall2 nd_equiv A' B'.
Proof.
  unfold simps.
  induction 1 as [| a b A B Hab HAB IH]; intros A' HA; simpl in *.
  - injection HA as <-. exists []. split; [reflexivity | constructor].
  - destruct (simps_sample simps_1d x a) as [e | a1] eqn:Ha;
      [discriminate |]. simpl in HA.
    destruct (traverse (simps_sample simps_1d x) A) as [e | A1] eqn:HA1;
      [discriminate |]. simpl in HA. injection HA as <-.
    destruct (simps_sample_equiv x a b a1 Hab Ha) as [b1 [Hb Hab1]].
    destruct (IH A1 eq_refl) as [B1 [HB HAB1]].
    rewrite Hb. simpl. rewrite HB. simpl.
    eexists. split; [reflexivity |]. constructor; assumption.
Qed.

Lemma simps_sample_true_divide (x : list Q) (c : Q) (a a' : ndarray Q) :
  ~ c == 0 ->
  simps_sample simps_1d x a = inr a' ->
  exists b', simps_sample simps_1d x (true_divide a c) = inr b' /\
             nd_equiv b' (true_divide a' c).
Proof.
  intros Hc. unfold simps_sample. cbn [shape true_divide].
  destruct (shape a) as [| n s']; [discriminate |].
  destruct (negb (length x =? n)%nat); [discriminate |].
  intros H. injection H as <-.
  eexists. split; [reflexivity |]. split; [reflexivity |].
  intros ix. cbn [item].
  pose proof (simps_1d_scale c
                (map (fun i => item a (i :: ix)) (seq 0 n)) x Hc) as H.
  rewrite map_map in H. exact H.
Qed.

Lemma simps_idiv (x : list Q) (c : Q) (A : list (ndarray Q)) :
  ~ c == 0 ->
  forall A', simps simps_1d A x = inr A' ->
  exists B', simps simps_1d (idiv A c) x = inr B' /\
             Forall2 nd_equiv B' (idiv A' c).
Proof.
  intros Hc. unfold simps, idiv.
  induction A as [| a A IH]; intros A' HA; simpl in *.
  - injection HA as <-. exists []. split; [reflexivity | constructor].
  - destruct (simps_sample simps_1d x a) as [e | a1] eqn:Ha;
      [discriminate |]. simpl in HA.
    destruct (traverse (simps_sample simps_1d x) A) as [e | A1] eqn:HA1;
      [discriminate |]. simpl in HA. injection HA as <-.
    destruct (simps_sample_true_divide x c a a1 Hc Ha) as [b1 [Hb Hab1]].
    destruct (IH A1 eq_refl) as [B1 [HB HAB1]].
    rewrite Hb. simpl. rewrite HB. simpl.
    eexists. split; [reflexivity |]. constructor; assumption.
Qed.

Lemma idiv_equiv (A B : list (ndarray Q)) (c : Q) :
  Forall2 nd_equiv A B -> Forall2 nd_equiv (idiv A c) (idiv B c).
Proof.
  unfold idiv. induction 1; simpl; constructor;
    [apply true_divide_equiv |]; assumption.
Qed.

Lemma idiv_twice (A : list (ndarray Q)) (c k : Q) :
  ~ c == 0 -> ~ k == 0 ->
  Forall2 nd_equiv (idiv (idiv A c) k) (idiv A (c * k)).
Proof.
  intros Hc Hk. unfold idiv.
  induction A; simpl; constructor;
    [apply true_divide_twice |]; assumption.
Qed.

Lemma idiv_same_divisor (A : list (ndarray Q)) (c k : Q) :
  c == k -> Forall2 nd_equiv (idiv A c) (idiv A k).
Proof.
  intros Hck. unfold idiv.
  induction A; simpl; constructor; [| assumption].
  split; [reflexivity |]. intros ix. simpl. rewrite Hck. reflexivity.
Qed.

(** The loop on an integrand already divided by [c]: what the full
    integral gives, divided by [c] and by every interval length. *)
Lemma integrate_loop_scaled :
  forall ds (A B : list (ndarray Q)) (c l0 : Q) F,
    ~ c == 0 ->
    Forall (fun d => ~ snd d - fst d == 0) (map fst ds) ->
    Forall2 nd_equiv B (idiv A c) ->
    full_integral simps_1d (map snd ds) A = inr F ->
    exists R,
      integrate_loop simps_1d ds B l0 = inr R /\
      Forall2 nd_equiv R (idiv F (c * volume (map fst ds))).
Proof.
  induction ds as [| [d s] ds IH]; intros A B c l0 F Hc Hlen HB HF.
  - simpl in *. injection HF as <-. exists B. split; [reflexivity |].
    eapply all_equiv_trans; [exact HB |].
    apply idiv_same_divisor. ring.
  - cbn [map fst snd full_integral integrate_loop volume] in *.
    inversion Hlen as [| d' ds' Hd Hds]; subst.
    destruct (simps simps_1d A s) as [e | A1] eqn:HA1; [discriminate |].
    cbn [bind] in HF.
    destruct (simps_idiv s c A Hc A1 HA1) as [B0 [HB0 HB0e]].
    destruct (simps_equiv s (idiv A c) B (all_equiv_sym _ _ HB) B0 HB0)
      as [B1 [HB1 HB1e]].
    rewrite HB1. cbn [bind].
    assert (Hc' : ~ c * (snd d - fst d) == 0).
    { intros H. apply Qmult_integral in H. tauto. }
    destruct (IH A1 (idiv B1 (snd d - fst d)) (c * (snd d - fst d))
                (snd d - fst d) F Hc' Hds) as [R [HR HRe]].
    + eapply all_equiv_trans; [| apply idiv_twice; assumption].
      apply idiv_equiv.
      eapply all_equiv_trans; [apply all_equiv_sym; exact HB1e |].
      exact HB0e.
    + exact HF.
    + exists R. split; [exact HR |].
      eapply all_equiv_trans; [exact HRe |].
      apply idiv_same_divisor. ring.
Qed.

Lemma idiv_one (A : list (ndarray Q)) : Forall2 nd_equiv A (idiv A 1).
Proof.
  unfold idiv. induction A; simpl; constructor; [| assumption].
  split; [reflexivity |]. intros ix. simpl. field.
Qed.

(** The full integral exists when the leading axes of the integrand
    are those of the grids. *)
Lemma full_integral_total :
  forall grids (A : list (ndarray Q)),
    Forall (has_grid_shape grids) A ->
    exists F, full_integral simps_1d grids A = inr F.
Proof.
  induction grids as [| s grids IH]; intros A HA.
  - exists A. reflexivity.
  - cbn [full_integral].
    assert (H1 : exists A1, simps simps_1d A s = inr A1 /\
                            Forall (has_grid_shape grids) A1).
    { unfold simps. induction HA as [| a A [rest Ha] HA IHA].
      - exists []. split; [reflexivity | constructor].
      - destruct IHA as [A1 [HA1 HA1s]].
        cbn [traverse]. unfold simps_sample at 1. rewrite Ha.
        cbn [map app]. rewrite Nat.eqb_refl. cbn [negb bind].
        rewrite HA1. cbn [bind].
        eexists. split; [reflexivity |].
        constructor; [| exact HA1s]. exists rest. reflexivity. }
    destruct H1 as [A1 [HA1 HA1s]]. rewrite HA1. cbn [bind].
    apply IH. exact HA1s.
Qed.

Lemma combine_fst {A B} (l : list A) (l' : list B) :
  length l = length l' -> map fst (combine l l') = l.
Proof.
  revert l'. induction l as [| a l IH]; intros [| b l'] H;
    simpl in *; try discriminate; [reflexivity |].
  f_equal. apply IH. lia.
Qed.

Lemma combine_snd {A B} (l : list A) (l' : list B) :
  length l = length l' -> map snd (combine l l') = l'.
Proof.
  revert l'. induction l as [| a l IH]; intros [| b l'] H;
    simpl in *; try discriminate; [reflexivity |].
  f_equal. apply IH. lia.
Qed.

(** What [simps] returns, sample by sample. *)
Lemma simps_entries (s : list Q) :
  forall (A A1 : list (ndarray Q)),
    simps simps_1d A s = inr A1 ->
    Forall2 (fun a a1 =>
               shape a = length s :: shape a1 /\
               item a1
               = fun ix =>
                   simps_1d (map (fun i => item a (i :: ix))
                                 (seq 0 (length s))) s)
            A A1.
Proof.
  unfold simps. induction A as [| a A IH]; intros A1 H; cbn [traverse] in H.
  - injection H as <-. constructor.
  - destruct (simps_sample simps_1d s a) as [e | a1] eqn:Ha;
      [discriminate |]. cbn [bind] in H.
    destruct (traverse (simps_sample simps_1d s) A) as [e | A1'] eqn:HA;
      [discriminate |]. cbn [bind] in H. injection H as <-.
    constructor; [| apply IH; reflexivity].
    unfold simps_sample in Ha.
    destruct (shape a) as [| n s'] eqn:Hs; [discriminate |].
    destruct (length s =? n)%nat eqn:Hn; cbn [negb] in Ha; [| discriminate].
    apply Nat.eqb_eq in Hn. subst n. injection Ha as <-.
    split; reflexivity.
Qed.

(** What [full_integral] returns, sample by sample: the multiple
    integral of the entries, on the axes that are left. *)
Lemma full_integral_entries :
  forall grids (A F : list (ndarray Q)),
    full_integral simps_1d grids A = inr F ->
    Forall2 (fun a f =>
               shape a = map (@length Q) grids ++ shape f /\
               forall ix,
                 item f ix = multiple_integral simps_1d grids (item a) ix)
            A F.
Proof.
  induction grids as [| s grids IH]; intros A F H; cbn [full_integral] in H.
  - injection H as <-. induction A; constructor; [| assumption].
    split; reflexivity.
  - destruct (simps simps_1d A s) as [e | A1] eqn:HA1; [discriminate |].
    cbn [bind] in H. pose proof (simps_entries s A A1 HA1) as H1.
    specialize (IH A1 F H). clear H HA1. revert F IH.
    induction H1 as [| a a1 A A1 [Hs Hi] _ IHA]; intros F IH;
      inversion IH as [| a1' f A1' F' [Hs' Hi'] HF]; subst; constructor.
    + split.
      * cbn [map app]. rewrite Hs, Hs'. reflexivity.
      * intros ix. rewrite Hi'. cbn [multiple_integral]. rewrite Hi.
        reflexivity.
    + apply IHA. exact HF.
Qed.

(** C3.  For a query whose domain has [k] non-degenerate intervals,
    one grid per interval, and pointwise depths on those grids,
    [IntegratedDepth.predict] (of an estimator fitted on a domain of
    dimension at least one) returns a result: the quadrature applied
    over every domain dimension in turn, the running result divided
    by the length of that dimension's interval at each step.  Each of
    its entries is the integral of the pointwise depths over the full
    domain divided by the product of the [k] interval lengths. *)
Theorem IntegratedDepth_predict_average
    (self : IntegratedDepth mv_depth) (X : FDataGrid) d0 rest :
  _domain_range _ self = Some (d0 :: rest) ->
  length (domain_range X) = length (grid_points X) ->
  Forall (fun d => ~ snd d - fst d == 0) (domain_range X) ->
  Forall (has_grid_shape (grid_points X))
         (mv_predict (multivariate_depth _ self) (data_matrix X)) ->
  exists result,
    IntegratedDepth_predict _ mv_predict simps_1d self X = inr result /\
    Forall2 (fun pointwise_depth integrated =>
               shape pointwise_depth
               = map (@length Q) (grid_points X) ++ shape integrated /\
               forall ix,
                 item integrated ix
                 == multiple_integral simps_1d (grid_points X)
                      (item pointwise_depth) ix
                    / volume (domain_range X))
            (mv_predict (multivariate_depth _ self) (data_matrix X))
            result.
Proof.
  intros Hfit Hzip Hlen Hshape.
  destruct (full_integral_total _ _ Hshape) as [F HF].
  unfold IntegratedDepth_predict. rewrite Hfit.
  destruct (integrate_loop_scaled
              (combine (domain_range X) (grid_points X))
              (mv_predict (multivariate_depth _ self) (data_matrix X))
              (mv_predict (multivariate_depth _ self) (data_matrix X))
              1 (snd d0 - fst d0) F) as [R [HR HRe]].
  - discriminate.
  - rewrite combine_fst by exact Hzip. exact Hlen.
  - apply idiv_one.
  - rewrite combine_snd by exact Hzip. exact HF.
  - exists R. split; [exact HR |].
    rewrite combine_fst in HRe by exact Hzip.
    pose proof (full_integral_entries _ _ _ HF) as Hent.
    clear HR HF Hshape. revert R HRe.
    induction Hent as [| a f A F' [Hs Hi] _ IH]; intros R HRe;
      inversion HRe as [| r fd R' Fd [Hrs Hri] HRe']; subst; constructor.
    + split.
      * rewrite Hs, Hrs. reflexivity.
      * intros ix. rewrite Hri. cbn [true_divide item]. rewrite Hi.
        apply Qdiv_comp; [reflexivity | ring].
    + apply IH. exact HRe'.
Qed.

End IntegratedDepthProofs.

(** *** Simpson's rule on three points as the quadrature *)

Lemma weighted_sum_scale (c : Q) :
  ~ c == 0 ->
  forall w y,
    weighted_sum w (map (fun v => v / c) y) == weighted_sum w y / c.
Proof.
  intros Hc. induction w as [| wi w IH]; intros [| yi y]; simpl;
    try (field; exact Hc).
  rewrite IH. field. exact Hc.
Qed.

Lemma weighted_sum_proper :
  forall w y y', Forall2 Qeq y y' -> weighted_sum w y == weighted_sum w y'.
Proof.
  induction w as [| wi w IH]; intros y y' H.
  - destruct H; reflexivity.
  - destruct H as [| yi yi' y y' Hi H]; simpl; [reflexivity |].
    rewrite Hi, (IH y y' H). reflexivity.
Qed.

Lemma simpson3_scale (c : Q) (y x : list Q) :
  ~ c == 0 -> simpson3 (map (fun v => v / c) y) x == simpson3 y x / c.
Proof. intros Hc. apply weighted_sum_scale. exact Hc. Qed.

Lemma simpson3_proper (y y' x : list Q) :
  Forall2 Qeq y y' -> simpson3 y x == simpson3 y' x.
Proof. apply weighted_sum_proper. Qed.

(** The estimator of the examples: the multivariate depth has no state
    and returns the values it is given. *)
Lemma IntegratedDepth_predict_average_witness :
  exists result,
    IntegratedDepth_predict unit (fun _ l => l) simpson3
      (IntegratedDepth_fit unit (fun _ _ => tt)
         (IntegratedDepth_init unit tt) example_fd2)
      example_fd2
    = inr result /\
    Forall2 (fun pointwise_depth integrated =>
               shape pointwise_depth
               = map (@length Q) (grid_points example_fd2)
                 ++ shape integrated /\
               forall ix,
                 item integrated ix
                 == multiple_integral simpson3 (grid_points example_fd2)
                      (item pointwise_depth) ix
                    / volume (domain_range example_fd2))
            (data_matrix example_fd2)
            result.
Proof.
  apply (IntegratedDepth_predict_average unit (fun _ l => l) simpson3
           simpson3_scale simpson3_proper
           (IntegratedDepth_fit unit (fun _ _ => tt)
              (IntegratedDepth_init unit tt) example_fd2)
           example_fd2 (0, 2) [(0, 4)]).
  - reflexivity.
  - reflexivity.
  - repeat constructor; discriminate.
  - repeat constructor. exists []. reflexivity.
Defined.

Lemma IntegratedDepth_predict_ignores_fitted_domain_witness :
  IntegratedDepth_predict unit (fun _ l => l) simpson3
    (IntegratedDepth_fit unit (fun _ _ => tt)
       (IntegratedDepth_init unit tt) example_fd)
    example_fd2
  = IntegratedDepth_predict unit (fun _ l => l) simpson3
      (IntegratedDepth_fit unit (fun _ _ => tt)
         (IntegratedDepth_init unit tt) example_fd2)
      example_fd2.
Proof.
  apply (IntegratedDepth_predict_ignores_fitted_domain
           unit (fun _ _ => tt) (fun _ l => l) simpson3
           (IntegratedDepth_init unit tt) (IntegratedDepth_init unit tt)
           example_fd example_fd2 example_fd2).
  - discriminate.
  - discriminate.
  - reflexivity.
Defined.

End DepthProofs.

(** ** Properties of the elastic metrics *)

Module ElasticProofs.

Import Elastic ElasticFormulas.
Local Open Scope R_scope.

(** *** numpy on rows without nan *)

Lemma sqrt_of_floored (v : R) :
  np_sqrt (match Rlt_dec v 0 with
           | left _ => Fin 0
           | right _ => Fin v
           end)
  = Fin (floored_srsf v).
Proof.
  unfold floored_srsf, np_sqrt.
  destruct (Rlt_dec v 0) as [Hneg | Hpos].
  - destruct (Rlt_dec 0 0) as [H | _]; [lra |].
    rewrite Rmax_left by lra. reflexivity.
  - destruct (Rlt_dec v 0) as [H | _]; [contradiction |].
    rewrite Rmax_right by lra. reflexivity.
Qed.

Lemma srsf_of_row (d : list R) :
  map np_sqrt (zero_negatives (map Fin d)) = map (fun v => Fin (floored_srsf v)) d.
Proof.
  unfold zero_negatives. rewrite !map_map.
  apply map_ext. intros v. apply sqrt_of_floored.
Qed.

Lemma combine_map_two {A B C D} (g : A -> C) (h : B -> D) :
  forall (l : list A) (l' : list B),
    combine (map g l) (map h l') = map (fun p => (g (fst p), h (snd p))) (combine l l').
Proof.
  induction l as [| a l IH]; intros [| b l']; simpl; try reflexivity.
  rewrite IH. reflexivity.
Qed.

Lemma multiply_finite (g : R -> R) (d1 d2 : list R) :
  length d1 = length d2 ->
  np_multiply (map (fun v => Fin (g v)) d1) (map (fun v => Fin (g v)) d2)
  = inr (map (fun p => Fin (g (fst p) * g (snd p))) (combine d1 d2)).
Proof.
  intros Hlen. unfold np_multiply. rewrite !length_map, Hlen, Nat.eqb_refl.
  cbn [negb]. rewrite combine_map_two, map_map. reflexivity.
Qed.

Lemma all_finite_map {A} (g : A -> R) (l : list A) :
  all_finite (map (fun a => Fin (g a)) l) = Some (map g l).
Proof.
  induction l as [| a l IH]; simpl; [reflexivity | now rewrite IH].
Qed.

Lemma all_finite_Some (a : list float64) (rs : list R) :
  all_finite a = Some rs -> a = map Fin rs.
Proof.
  revert rs. induction a as [| [r |] a IH]; intros rs H; simpl in H.
  - injection H as <-. reflexivity.
  - destruct (all_finite a) as [rs' |]; [| discriminate].
    injection H as <-. simpl. f_equal. apply IH. reflexivity.
  - discriminate.
Qed.

Lemma clamp_cases (d : R) :
  (d < -1 /\ clamp d = -1) \/ (-1 <= d <= 1 /\ clamp d = d) \/
  (1 < d /\ clamp d = 1).
Proof.
  unfold clamp.
  destruct (Rlt_dec d (-1)) as [Hlo | Hlo];
    [| destruct (Rlt_dec 1 d) as [Hhi | Hhi]].
  - left. split; [exact Hlo |].
    rewrite (Rmin_right 1 d), (Rmax_left (-1) d) by lra. reflexivity.
  - right. right. split; [exact Hhi |].
    rewrite (Rmin_left 1 d), (Rmax_right (-1) 1) by lra. reflexivity.
  - right. left. split; [lra |].
    rewrite (Rmin_right 1 d), (Rmax_right (-1) d) by lra. reflexivity.
Qed.

Lemma clip_is_clamp (d : R) : Rmin (Rmax d (-1)) 1 = clamp d.
Proof.
  destruct (clamp_cases d) as [[H ->] | [[H ->] | [H ->]]].
  - rewrite (Rmax_right d (-1)), Rmin_left by lra. reflexivity.
  - rewrite (Rmax_left d (-1)), Rmin_left by lra. reflexivity.
  - rewrite (Rmax_left d (-1)), Rmin_right by lra. reflexivity.
Qed.

Lemma clamp_range (d : R) : -1 <= clamp d <= 1.
Proof.
  destruct (clamp_cases d) as [[H ->] | [[H ->] | [H ->]]]; lra.
Qed.

Lemma clamp_nonneg (d : R) : 0 <= d -> 0 <= clamp d.
Proof.
  intros Hd.
  destruct (clamp_cases d) as [[H ->] | [[H ->] | [H ->]]]; lra.
Qed.

Lemma arccos_of_clip (d : R) :
  np_arccos (np_clip (Fin d) (-1) 1) = Fin (acos (clamp d)).
Proof.
  unfold np_clip, np_arccos. rewrite clip_is_clamp.
  pose proof (clamp_range d) as [Hlo Hhi].
  destruct (Rlt_dec (clamp d) (-1)); [lra |].
  destruct (Rlt_dec 1 (clamp d)); [lra |]. reflexivity.
Qed.

Lemma arccos_of_clip_cases (v w : float64) :
  np_arccos (np_clip v (-1) 1) = w ->
  (v = NaN /\ w = NaN) \/ (exists d, v = Fin d /\ w = Fin (acos (clamp d))).
Proof.
  destruct v as [d |]; intros <-.
  - right. exists d. split; [reflexivity | apply arccos_of_clip].
  - left. split; reflexivity.
Qed.

Lemma acos_quarter_turn (x : R) : 0 <= x -> acos x <= PI / 2.
Proof.
  intros Hx. unfold acos.
  destruct (Rle_dec x (-1)); [lra |].
  destruct (Rle_dec 1 x); [pose proof PI_RGT_0; lra |].
  assert (Hs : 0 < sqrt (1 - x²)).
  { apply sqrt_lt_R0. unfold Rsqr. nra. }
  assert (Hq : 0 <= x / sqrt (1 - x²)).
  { apply Rmult_le_pos; [exact Hx |].
    apply Rlt_le, Rinv_0_lt_compat. exact Hs. }
  destruct Hq as [Hq | Hq].
  - pose proof (atan_increasing _ _ Hq) as H. rewrite atan_0 in H. lra.
  - rewrite <- Hq, atan_0. lra.
Qed.

Lemma sqrt_row_nonneg (row : list R) :
  Forall (fun v => 0 <= v) row ->
  map np_sqrt (map Fin row) = map (fun v => Fin (sqrt v)) row.
Proof.
  intros H. rewrite map_map. apply map_ext_in. intros v Hv.
  rewrite Forall_forall in H. specialize (H v Hv). unfold np_sqrt.
  destruct (Rlt_dec v 0); [lra | reflexivity].
Qed.

Lemma all_finite_None (a : list float64) :
  In NaN a -> all_finite a = None.
Proof.
  induction a as [| [r |] a IH]; simpl; intros H.
  - contradiction.
  - destruct H as [H | H]; [discriminate |]. now rewrite IH.
  - reflexivity.
Qed.

Lemma sqrt_row_negative (row : list R) :
  Exists (fun v => v < 0) row -> In NaN (map np_sqrt (map Fin row)).
Proof.
  rewrite Exists_exists. intros [v [Hv Hneg]].
  rewrite map_map. apply in_map_iff. exists v. split; [| exact Hv].
  unfold np_sqrt. destruct (Rlt_dec v 0); [reflexivity | lra].
Qed.

Lemma row_sign (row : list R) :
  Forall (fun v => 0 <= v) row \/ Exists (fun v => v < 0) row.
Proof.
  induction row as [| v row [IH | IH]].
  - left. constructor.
  - destruct (Rlt_dec v 0) as [Hneg | Hpos].
    + right. constructor. exact Hneg.
    + left. constructor; [lra | exact IH].
  - right. apply Exists_cons_tl. exact IH.
Qed.

Lemma map_combine_swap {A B} (F : A * A -> B) (F' : A * A -> B) :
  (forall a b, F (a, b) = F' (b, a)) ->
  forall l l', map F (combine l l') = map F' (combine l' l).
Proof.
  intros H. induction l as [| a l IH]; intros [| b l']; simpl;
    try reflexivity.
  rewrite H, IH. reflexivity.
Qed.

Lemma map_combine_diag {A B} (F : A * A -> B) (l : list A) :
  map F (combine l l) = map (fun a => F (a, a)) l.
Proof.
  induction l as [| a l IH]; simpl; [reflexivity | now rewrite IH].
Qed.

Section MetricsProofs.

Variable _cast_to_grid :
  FDataGrid -> FDataGrid -> exception + (FDataGrid * FDataGrid).
Variable _normalize_scale : list R -> list R.
Variable normalize_warping : FDataGrid -> R * R -> FDataGrid.
Variable derivative : FDataGrid -> FDataGrid.
Variable evaluate : FDataGrid -> list R -> list (list R).
Variable elastic_registration :
  FDataGrid -> R -> list R -> FDataGrid -> FDataGrid * FDataGrid.
Variable simps_1d : list R -> list R -> R.

Local Abbreviation warping_distance :=
  (warping_distance _cast_to_grid normalize_warping derivative simps_1d).
Local Abbreviation phase_distance :=
  (phase_distance _cast_to_grid _normalize_scale derivative evaluate
     elastic_registration simps_1d).
Local Abbreviation amplitude_distance :=
  (amplitude_distance _cast_to_grid _normalize_scale derivative evaluate
     elastic_registration simps_1d).
Local Abbreviation fisher_rao_distance :=
  (fisher_rao_distance _cast_to_grid _normalize_scale derivative simps_1d).
Local Abbreviation warping_derivative_on_grid :=
  (warping_derivative_on_grid _normalize_scale derivative evaluate
     elastic_registration).

(** *** The warping-space distance *)

Lemma srsf_product_nonneg (d1 d2 : list R) :
  Forall (fun t => 0 <= t) (srsf_product d1 d2).
Proof.
  unfold srsf_product. apply Forall_forall. intros t Ht.
  apply in_map_iff in Ht. destruct Ht as [p [<- _]].
  apply Rmult_le_pos; apply sqrt_pos.
Qed.

Lemma warping_distance_inversion (w1 w2 : FDataGrid) (v : float64) :
  warping_distance w1 w2 = inr v ->
  exists c1 c2 d1 r1 d2 r2,
    _cast_to_grid w1 w2 = inr (c1, c2) /\
    data_matrix (derivative (normalize_warping c1 (0, 1))) = d1 :: r1 /\
    data_matrix (derivative (normalize_warping c2 (0, 1))) = d2 :: r2 /\
    length d1 = length d2 /\
    length (grid_points (normalize_warping c1 (0, 1))) = length d1 /\
    v = Fin (acos (clamp (simps_1d (srsf_product d1 d2)
                            (grid_points (normalize_warping c1 (0, 1)))))).
Proof.
  unfold Elastic.warping_distance.
  destruct (_cast_to_grid w1 w2) as [e | [c1 c2]]; [discriminate |].
  cbn [bind].
  destruct (data_matrix (derivative (normalize_warping c1 (0, 1))))
    as [| d1 r1] eqn:H1; [discriminate |].
  destruct (data_matrix (derivative (normalize_warping c2 (0, 1))))
    as [| d2 r2] eqn:H2; [discriminate |].
  cbn [first_row bind]. rewrite !srsf_of_row.
  unfold np_multiply. rewrite !length_map.
  destruct (length d1 =? length d2)%nat eqn:Hlen; [| discriminate].
  apply Nat.eqb_eq in Hlen. cbn [negb bind].
  rewrite combine_map_two, map_map. cbn [fst snd].
  unfold simps. rewrite length_map, length_combine, <- Hlen, Nat.min_id.
  destruct (Nat.eqb (length (grid_points (normalize_warping c1 (0, 1))))
                    (length d1)) eqn:Hg; [| discriminate].
  apply Nat.eqb_eq in Hg. cbn [negb].
  rewrite (all_finite_map
             (fun p => floored_srsf (fst p) * floored_srsf (snd p))).
  cbn [bind]. rewrite arccos_of_clip. intros H. injection H as <-.
  exists c1, c2, d1, r1, d2, r2. repeat split; assumption || reflexivity.
Qed.

Lemma warping_distance_quadrature (w1 w2 c1 c2 : FDataGrid) d1 r1 d2 r2 :
  _cast_to_grid w1 w2 = inr (c1, c2) ->
  data_matrix (derivative (normalize_warping c1 (0, 1))) = d1 :: r1 ->
  data_matrix (derivative (normalize_warping c2 (0, 1))) = d2 :: r2 ->
  length d1 = length d2 ->
  length (grid_points (normalize_warping c1 (0, 1))) = length d1 ->
  warping_distance w1 w2
  = inr (np_arccos
           (np_clip (Fin (simps_1d (srsf_product d1 d2)
                            (grid_points (normalize_warping c1 (0, 1)))))
                    (-1) 1)).
Proof.
  intros Hc H1 H2 Hlen Hg. unfold Elastic.warping_distance.
  rewrite Hc. cbn [bind]. rewrite H1, H2. cbn [first_row bind].
  rewrite !srsf_of_row. rewrite multiply_finite by exact Hlen. cbn [bind].
  unfold simps. rewrite length_map, length_combine, <- Hlen, Nat.min_id.
  rewrite Hg, Nat.eqb_refl. cbn [negb].
  rewrite (all_finite_map
             (fun p => floored_srsf (fst p) * floored_srsf (snd p))).
  reflexivity.
Qed.

(** C4.  For two warpings that [_cast_to_grid] puts on a common grid,
    [warping_distance] normalizes both to [0, 1], takes the derivative of
    each on the grid, floors its negative values to zero, takes the square
    roots, integrates the product of the two by quadrature to a value d,
    clamps d into [-1, 1] and returns arccos(d): never a nan. *)
Theorem warping_distance_steps (w1 w2 c1 c2 : FDataGrid) d1 r1 d2 r2 :
  _cast_to_grid w1 w2 = inr (c1, c2) ->
  data_matrix (derivative (normalize_warping c1 (0, 1))) = d1 :: r1 ->
  data_matrix (derivative (normalize_warping c2 (0, 1))) = d2 :: r2 ->
  length d1 = length d2 ->
  length (grid_points (normalize_warping c1 (0, 1))) = length d1 ->
  warping_distance w1 w2
  = inr (Fin (warping_distance_formula simps_1d d1 d2
                (grid_points (normalize_warping c1 (0, 1))))).
Proof.
  intros Hc H1 H2 Hlen Hg.
  rewrite (warping_distance_quadrature w1 w2 c1 c2 d1 r1 d2 r2)
    by assumption.
  rewrite arccos_of_clip. reflexivity.
Qed.

(** *** The phase and amplitude distances *)

Lemma phase_distance_inversion (f1 f2 : FDataGrid) (lam : R) (v : float64) :
  phase_distance f1 f2 lam = inr v ->
  exists c1 c2 row rest,
    _cast_to_grid f1 f2 = inr (c1, c2) /\
    warping_derivative_on_grid c1 c2 lam = row :: rest /\
    length (_normalize_scale (grid_points c1)) = length row /\
    ((Exists (fun t => t < 0) row /\ v = NaN) \/
     (Forall (fun t => 0 <= t) row /\
      v = Fin (acos (clamp (simps_1d (map sqrt row)
                              (_normalize_scale (grid_points c1))))))).
Proof.
  unfold Elastic.phase_distance, Elastic.warping_derivative_on_grid.
  destruct (_cast_to_grid f1 f2) as [e | [c1 c2]]; [discriminate |].
  cbn [bind].
  destruct (elastic_registration _ lam _ _) as [reg w] eqn:Hreg.
  destruct (evaluate (derivative w) (_normalize_scale (grid_points c1)))
    as [| row rest] eqn:Hrow; [discriminate |].
  cbn [first_row bind]. unfold simps. rewrite !length_map.
  destruct (Nat.eqb (length (_normalize_scale (grid_points c1)))
                    (length row)) eqn:Hg; [| discriminate].
  apply Nat.eqb_eq in Hg. cbn [negb].
  intros H. exists c1, c2, row, rest.
  split; [reflexivity |].
  split; [cbv zeta; rewrite Hreg; exact Hrow |].
  split; [exact Hg |].
  destruct (row_sign row) as [Hpos | Hneg].
  - right. split; [exact Hpos |].
    rewrite (sqrt_row_nonneg row Hpos), (all_finite_map sqrt) in H.
    cbn [bind] in H. rewrite arccos_of_clip in H.
    injection H as <-. reflexivity.
  - left. split; [exact Hneg |].
    rewrite (all_finite_None _ (sqrt_row_negative row Hneg)) in H.
    cbn [bind np_clip np_arccos] in H. injection H as <-. reflexivity.
Qed.

Lemma phase_distance_negative (f1 f2 c1 c2 : FDataGrid) (lam : R) row rest :
  _cast_to_grid f1 f2 = inr (c1, c2) ->
  warping_derivative_on_grid c1 c2 lam = row :: rest ->
  length (_normalize_scale (grid_points c1)) = length row ->
  Exists (fun t => t < 0) row ->
  phase_distance f1 f2 lam = inr NaN.
Proof.
  unfold Elastic.phase_distance, Elastic.warping_derivative_on_grid.
  intros Hc Hrow Hg Hneg. rewrite Hc. cbn [bind].
  destruct (elastic_registration _ lam _ _) as [reg w]. cbn [snd] in Hrow.
  rewrite Hrow. cbn [first_row bind]. unfold simps.
  rewrite !length_map, Hg, Nat.eqb_refl. cbn [negb].
  rewrite (all_finite_None _ (sqrt_row_negative row Hneg)). reflexivity.
Qed.

Lemma lift2_nan_right (op : R -> R -> R) (a : float64) : lift2 op a NaN = NaN.
Proof. destruct a; reflexivity. Qed.

Lemma amplitude_distance_negative (f1 f2 c1 c2 : FDataGrid) (lam : R)
    row rest :
  _cast_to_grid f1 f2 = inr (c1, c2) ->
  warping_derivative_on_grid c1 c2 lam = row :: rest ->
  length (_normalize_scale (grid_points c1)) = length row ->
  Exists (fun t => t < 0) row ->
  lam <> 0 ->
  exists distance,
    amplitude_distance f1 f2 lam = inr distance /\
    Forall (fun v => v = NaN) distance.
Proof.
  unfold Elastic.amplitude_distance, Elastic.warping_derivative_on_grid.
  intros Hc Hrow Hg Hneg Hlam. rewrite Hc. cbn [bind].
  destruct (elastic_registration _ lam _ _) as [reg w]. cbn [snd] in Hrow.
  cbn [SRSF_fit_transform].
  destruct (Req_dec_T lam 0) as [H0 | _]; [contradiction |].
  rewrite Hrow. cbn [first_row bind]. unfold simps.
  rewrite !length_map, Hg, Nat.eqb_refl. cbn [negb].
  rewrite all_finite_None.
  - cbn [bind]. eexists. split; [reflexivity |].
    apply Forall_forall. intros v Hv. apply in_map_iff in Hv.
    destruct Hv as [dist [<- _]].
    rewrite !lift2_nan_right. reflexivity.
  - apply in_map_iff. exists NaN. split; [reflexivity |].
    apply in_map_iff. exists NaN. split; [reflexivity |].
    apply sqrt_row_negative. exact Hneg.
Qed.

(** C2, as the code has it.  When the derivative of the warping has a
    negative value on the grid, [phase_distance] and, for a penalty that
    is not 0, [amplitude_distance] take its square root as it is: the nan
    that results reaches the returned value.  Nothing is floored to
    zero, as [warping_distance] does with [zero_negatives]. *)
Theorem negative_warping_derivative_not_floored
    (f1 f2 c1 c2 : FDataGrid) (lam : R) row rest :
  _cast_to_grid f1 f2 = inr (c1, c2) ->
  warping_derivative_on_grid c1 c2 lam = row :: rest ->
  length (_normalize_scale (grid_points c1)) = length row ->
  Exists (fun t => t < 0) row ->
  phase_distance f1 f2 lam = inr NaN /\
  (lam <> 0 ->
   exists distance,
     amplitude_distance f1 f2 lam = inr distance /\
     Forall (fun v => v = NaN) distance).
Proof.
  intros Hc Hrow Hg Hneg. split.
  - eapply phase_distance_negative; eassumption.
  - intros Hlam. eapply amplitude_distance_negative; eassumption.
Qed.

(** C5, as the code has it.  Whatever [warping_distance] returns is a
    number in [0, pi], and so is whatever number [phase_distance]
    returns; it is in [0, pi/2] when the quadrature on the grid of the
    call gives a value that is not negative for an integrand that is not
    negative. *)
Theorem warping_and_phase_distance_range :
  (forall w1 w2 c1 c2 v,
      _cast_to_grid w1 w2 = inr (c1, c2) ->
      warping_distance w1 w2 = inr v ->
      exists r,
        v = Fin r /\ 0 <= r <= PI /\
        ((forall y, Forall (fun t => 0 <= t) y ->
                    0 <= simps_1d y (grid_points (normalize_warping c1 (0, 1))))
         -> r <= PI / 2)) /\
  (forall f1 f2 lam c1 c2 r,
      _cast_to_grid f1 f2 = inr (c1, c2) ->
      phase_distance f1 f2 lam = inr (Fin r) ->
      0 <= r <= PI /\
      ((forall y, Forall (fun t => 0 <= t) y ->
                  0 <= simps_1d y (_normalize_scale (grid_points c1)))
       -> r <= PI / 2)).
Proof.
  split.
  - intros w1 w2 c1 c2 v Hc Hv.
    destruct (warping_distance_inversion w1 w2 v Hv)
      as (c1' & c2' & d1 & r1 & d2 & r2 & Hc' & H1 & H2 & Hlen & Hg & ->).
    rewrite Hc in Hc'. injection Hc' as <- <-.
    eexists. split; [reflexivity |]. split; [apply acos_bound |].
    intros Hq. apply acos_quarter_turn, clamp_nonneg, Hq.
    apply srsf_product_nonneg.
  - intros f1 f2 lam c1 c2 r Hc Hv.
    destruct (phase_distance_inversion f1 f2 lam (Fin r) Hv)
      as (c1' & c2' & row & rest & Hc' & Hrow & Hg & Hcases).
    rewrite Hc in Hc'. injection Hc' as <- <-.
    destruct Hcases as [[_ Hnan] | [Hpos Hfin]]; [discriminate |].
    injection Hfin as ->. split; [apply acos_bound |].
    intros Hq. apply acos_quarter_turn, clamp_nonneg, Hq.
    apply Forall_forall. intros t Ht. apply in_map_iff in Ht.
    destruct Ht as [u [<- _]]. apply sqrt_pos.
Qed.

(** *** The Fisher-Rao distance *)

Lemma l2_distance_sym (a b : FDataGrid) :
  grid_points a = grid_points b ->
  l2_distance simps_1d a b = l2_distance simps_1d b a.
Proof.
  intros Hg. unfold l2_distance. rewrite Hg.
  apply map_combine_swap. intros r r'. cbn [fst snd]. f_equal. f_equal.
  apply map_combine_swap. intros x y. cbn [fst snd]. ring.
Qed.

Lemma l2_distance_diag (a : FDataGrid) :
  (forall c y x, simps_1d (map (Rmult c) y) x = c * simps_1d y x) ->
  Forall (fun d => d = 0) (l2_distance simps_1d a a).
Proof.
  intros Hscale. unfold l2_distance. apply Forall_forall. intros d Hd.
  rewrite map_combine_diag in Hd. apply in_map_iff in Hd.
  destruct Hd as [r [<- _]]. cbn [fst snd].
  rewrite map_combine_diag. cbn [fst snd].
  rewrite (map_ext _ (Rmult 0)) by (intros x; ring).
  rewrite Hscale, Rmult_0_l. apply sqrt_0.
Qed.

(** C7.  For scalar functions on a common grid, which [_cast_to_grid]
    returns as they are, [fisher_rao_distance] is symmetric; and for a
    quadrature that is homogeneous, the distance of a function to itself
    is 0 (in exact arithmetic). *)
Theorem fisher_rao_distance_symmetric (f g : FDataGrid) :
  grid_points f = grid_points g ->
  _cast_to_grid f g = inr (f, g) ->
  _cast_to_grid g f = inr (g, f) ->
  _cast_to_grid f f = inr (f, f) ->
  (forall c y x, simps_1d (map (Rmult c) y) x = c * simps_1d y x) ->
  fisher_rao_distance f g = fisher_rao_distance g f /\
  exists distance,
    fisher_rao_distance f f = inr distance /\
    Forall (fun d => d = 0) distance.
Proof.
  intros Hg Hfg Hgf Hff Hscale. unfold Elastic.fisher_rao_distance.
  rewrite Hfg, Hgf, Hff. cbn [bind SRSF_fit_transform]. split.
  - f_equal. rewrite <- Hg. apply l2_distance_sym. reflexivity.
  - eexists. split; [reflexivity |]. apply l2_distance_diag. exact Hscale.
Qed.

End MetricsProofs.

(** *** Simpson's rule on three points as the quadrature *)

Lemma weighted_sum_homogeneous (c : R) :
  forall w y, weighted_sum w (map (Rmult c) y) = c * weighted_sum w y.
Proof.
  induction w as [| wi w IH]; intros [| yi y]; simpl; try ring.
  rewrite IH. ring.
Qed.

Lemma simpson3_homogeneous (c : R) (y x : list R) :
  simpson3 (map (Rmult c) y) x = c * simpson3 y x.
Proof. apply weighted_sum_homogeneous. Qed.

Lemma weighted_sum_nonneg :
  forall w y,
    Forall (fun t => 0 <= t) w -> Forall (fun t => 0 <= t) y ->
    0 <= weighted_sum w y.
Proof.
  induction w as [| wi w IH]; intros [| yi y] Hw Hy; simpl; try lra.
  inversion Hw; subst. inversion Hy; subst.
  specialize (IH y H2 H4). nra.
Qed.

Lemma simpson3_nonneg_equally_spaced (y : list R) :
  Forall (fun t => 0 <= t) y -> 0 <= simpson3 y [0; 1 / 2; 1].
Proof.
  intros Hy. apply weighted_sum_nonneg; [| exact Hy].
  cbn [simpson3_weights]. repeat constructor.
  - replace ((1 / 2 - 0 + (1 - 1 / 2)) / 6 * (2 - (1 - 1 / 2) / (1 / 2 - 0)))
      with (1 / 6) by field. lra.
  - replace ((1 / 2 - 0 + (1 - 1 / 2)) / 6
             * ((1 / 2 - 0 + (1 - 1 / 2)) * (1 / 2 - 0 + (1 - 1 / 2))
                / ((1 / 2 - 0) * (1 - 1 / 2))))
      with (4 / 6) by field. lra.
  - replace ((1 / 2 - 0 + (1 - 1 / 2)) / 6 * (2 - (1 / 2 - 0) / (1 - 1 / 2)))
      with (1 / 6) by field. lra.
Qed.

(** The warping-space distance with second-order differences and
    Simpson's rule, on three equally spaced grid points. *)
Local Abbreviation warping_distance_3 :=
  (warping_distance cast_same_grid warping_unit second_order_derivative
     simpson3).

Lemma warping_distance_steps_witness :
  warping_distance_3 early_warping early_warping
  = inr (Fin (warping_distance_formula simpson3
                (second_order_differences [0; 9 / 10; 1] [0; 1 / 2; 1])
                (second_order_differences [0; 9 / 10; 1] [0; 1 / 2; 1])
                [0; 1 / 2; 1])).
Proof.
  apply (warping_distance_steps cast_same_grid warping_unit
           second_order_derivative simpson3
           early_warping early_warping early_warping early_warping
           (second_order_differences [0; 9 / 10; 1] [0; 1 / 2; 1]) []
           (second_order_differences [0; 9 / 10; 1] [0; 1 / 2; 1]) []);
    reflexivity.
Defined.

Lemma warping_and_phase_distance_range_witness :
  exists r,
    Fin (warping_distance_formula simpson3
           (second_order_differences [0; 9 / 10; 1] [0; 1 / 2; 1])
           (second_order_differences [0; 9 / 10; 1] [0; 1 / 2; 1])
           [0; 1 / 2; 1])
    = Fin r /\
    0 <= r <= PI /\
    ((forall y, Forall (fun t => 0 <= t) y -> 0 <= simpson3 y [0; 1 / 2; 1])
     -> r <= PI / 2).
Proof.
  apply (proj1 (warping_and_phase_distance_range cast_same_grid scale_unit
                  warping_unit second_order_derivative evaluate_on_grid
                  (registration_finding early_warping) simpson3)
           early_warping early_warping early_warping early_warping).
  - reflexivity.
  - rewrite (warping_distance_quadrature cast_same_grid warping_unit
               second_order_derivative simpson3
               early_warping early_warping early_warping early_warping
               (second_order_differences [0; 9 / 10; 1] [0; 1 / 2; 1]) []
               (second_order_differences [0; 9 / 10; 1] [0; 1 / 2; 1]) [])
      by reflexivity.
    rewrite arccos_of_clip. reflexivity.
Defined.

(** *** A warping farther than a quarter turn from itself *)

Lemma acos_of_negative (x : R) : 0 < x -> PI / 2 < acos (- x).
Proof.
  intros Hx. rewrite acos_opp. unfold acos.
  destruct (Rle_dec x (-1)); [lra |].
  destruct (Rle_dec 1 x); [pose proof PI_RGT_0; lra |].
  assert (Hs : 0 < sqrt (1 - x²)).
  { apply sqrt_lt_R0. unfold Rsqr. nra. }
  assert (Hq : 0 < x / sqrt (1 - x²)).
  { apply Rmult_lt_0_compat; [exact Hx |].
    apply Rinv_0_lt_compat. exact Hs. }
  pose proof (atan_increasing _ _ Hq) as H. rewrite atan_0 in H. lra.
Qed.

Lemma srsf_product_diagonal (d : list R) :
  Forall (fun t => 0 <= t) d -> srsf_product d d = d.
Proof.
  unfold srsf_product. induction 1 as [| t d Ht _ IH]; [reflexivity |].
  cbn [combine map fst snd]. rewrite IH. f_equal.
  unfold floored_srsf. rewrite (Rmax_right 0 t) by exact Ht.
  apply sqrt_sqrt. exact Ht.
Qed.

(** On three equally spaced grid points the slopes of the parabola are
    the second-order differences used above; on the grid 0, 1/10, 1 they
    give the warping 0, 1, 1 the derivative values 11, 9, -9. *)
Lemma three_point_differences_equally_spaced (x0 h y0 y1 y2 : R) :
  h <> 0 ->
  three_point_differences [y0; y1; y2] [x0; x0 + h; x0 + 2 * h]
  = second_order_differences [y0; y1; y2] [x0; x0 + h; x0 + 2 * h].
Proof.
  intros Hh.
  cbn [three_point_differences inner_and_last_differences
       second_order_differences].
  unfold parabola_slope_left, parabola_slope_mid, parabola_slope_right.
  repeat (apply (f_equal2 (@cons R)); [field; lra |]). reflexivity.
Qed.

Lemma three_point_differences_unequally_spaced :
  three_point_differences [0; 1; 1] [0; 1 / 10; 1] = [11; 9; - (9)].
Proof.
  cbn [three_point_differences inner_and_last_differences].
  unfold parabola_slope_left, parabola_slope_mid, parabola_slope_right.
  repeat (apply (f_equal2 (@cons R)); [field |]). reflexivity.
Qed.

(** The second-order differences of the plateau: 5, 5, 5/2, 0, 0, none
    of them negative. *)
Lemma plateau_slopes :
  three_point_differences [0; 1 / 2; 1; 1; 1] [0; 1 / 10; 1 / 5; 3 / 10; 1]
  = [5; 5; 5 / 2; 0; 0].
Proof.
  cbn [three_point_differences inner_and_last_differences].
  unfold parabola_slope_left, parabola_slope_mid, parabola_slope_right.
  repeat (apply (f_equal2 (@cons R)); [field |]). reflexivity.
Qed.

(** Simpson's rule on them: 11/12 on the first panel, -5/3 on the
    second, whose first abscissa has the weight (8/10)/6 * (2 - 7). *)
Lemma plateau_quadrature :
  simpson_composite [5; 5; 5 / 2; 0; 0] [0; 1 / 10; 1 / 5; 3 / 10; 1]
  = - (3 / 4).
Proof.
  cbn [simpson_composite simpson3 simpson3_weights weighted_sum]. field.
Qed.

Lemma returned_number (a b : R) :
  @inr exception float64 (Fin a) = inr (Fin b) -> a = b.
Proof. intros H. injection H as ->. reflexivity. Qed.

(** C5, as stated, fails.  The warping with the values 0, 1/2, 1, 1, 1
    at the grid points 0, 1/10, 1/5, 3/10, 1 has the second-order
    derivative values 5, 5, 5/2, 0, 0; Simpson's rule on these unequally
    spaced points gives the product of the warping with itself the
    quadrature -3/4, which the clamp into [-1, 1] leaves as it is: the
    distance of the warping to itself is arccos(-3/4), more than pi/2. *)
Lemma warping_distance_beyond_quarter_turn :
  ~ (exists r,
       warping_distance cast_same_grid warping_unit three_point_derivative
         simpson_composite plateau_warping plateau_warping
       = inr (Fin r) /\
       0 <= r <= PI / 2).
Proof.
  intros [r [Hr Hrange]].
  rewrite (warping_distance_quadrature cast_same_grid warping_unit
             three_point_derivative simpson_composite
             plateau_warping plateau_warping plateau_warping plateau_warping
             (three_point_differences [0; 1 / 2; 1; 1; 1]
                                      [0; 1 / 10; 1 / 5; 3 / 10; 1]) []
             (three_point_differences [0; 1 / 2; 1; 1; 1]
                                      [0; 1 / 10; 1 / 5; 3 / 10; 1]) [])
    in Hr by reflexivity.
  rewrite arccos_of_clip in Hr. apply returned_number in Hr. subst r.
  rewrite plateau_slopes in Hrange.
  rewrite srsf_product_diagonal in Hrange
    by (repeat (apply Forall_cons; [lra |]); apply Forall_nil).
  cbn [plateau_warping warping_unit grid_points] in Hrange.
  rewrite plateau_quadrature in Hrange.
  destruct (clamp_cases (- (3 / 4))) as [[H _] | [[_ Hc] | [H _]]];
    [lra | | lra].
  rewrite Hc in Hrange.
  pose proof (acos_of_negative (3 / 4)). lra.
Qed.

(** The phase and amplitude distances with second-order differences, for
    a registration that finds [early_warping]: its derivative on the grid
    is 13/5, 1, -3/5. *)
Lemma negative_warping_derivative_not_floored_witness :
  phase_distance cast_same_grid scale_unit second_order_derivative
    evaluate_on_grid (registration_finding early_warping) simpson3
    ramp ramp 1
  = inr NaN /\
  (1 <> 0 ->
   exists distance,
     amplitude_distance cast_same_grid scale_unit second_order_derivative
       evaluate_on_grid (registration_finding early_warping) simpson3
       ramp ramp 1
     = inr distance /\
     Forall (fun v => v = NaN) distance).
Proof.
  apply (negative_warping_derivative_not_floored cast_same_grid scale_unit
           second_order_derivative evaluate_on_grid
           (registration_finding early_warping) simpson3
           ramp ramp ramp ramp 1
           (second_order_differences [0; 9 / 10; 1] [0; 1 / 2; 1]) []).
  - reflexivity.
  - reflexivity.
  - reflexivity.
  - cbn [second_order_differences].
    apply Exists_cons_tl, Exists_cons_tl, Exists_cons_hd.
    replace ((0 - 4 * (9 / 10) + 3 * 1) / (1 - 0)) with (- (3 / 5)) by field.
    lra.
Defined.

Lemma fisher_rao_distance_symmetric_witness :
  fisher_rao_distance cast_same_grid scale_unit second_order_derivative simpson3
    ramp early_warping
  = fisher_rao_distance cast_same_grid scale_unit second_order_derivative simpson3
      early_warping ramp /\
  exists distance,
    fisher_rao_distance cast_same_grid scale_unit second_order_derivative simpson3
      ramp ramp
    = inr distance /\
    Forall (fun d => d = 0) distance.
Proof.
  apply (fisher_rao_distance_symmetric cast_same_grid scale_unit
           second_order_derivative simpson3 ramp early_warping).
  - reflexivity.
  - reflexivity.
  - reflexivity.
  - reflexivity.
  - intros c y x. apply simpson3_homogeneous.
Defined.

End ElasticProofs.

(** ** Further properties of the depth measures *)

Module DepthExtras.

Import Numpy Depth DepthObjects DepthProofs.

(** *** Band depth *)

Lemma BandDepth_predict_hits (self : BandDepth) (dist X : FDataGrid) :
  _distribution self = Some dist ->
  (2 <= length (data_matrix dist))%nat ->
  (forall f x, In f (data_matrix dist) -> In x (data_matrix X) ->
               shape f = shape x) ->
  combinations2 (data_matrix dist) <> [] /\
  BandDepth_predict self X
  = inr (FloatArray
           (map (fun x =>
                   inject_Z (Z.of_nat (hits (combinations2 (data_matrix dist)) x))
                   / inject_Z (Z.of_nat (length (combinations2 (data_matrix dist)))))
                (data_matrix X))).
Proof.
  intros Hfit HN Hshape.
  assert (Hne : combinations2 (data_matrix dist) <> []).
  { intros Hnil. pose proof (length_combinations2 (data_matrix dist)) as H2.
    rewrite Hnil in H2. simpl in H2. nia. }
  split; [exact Hne |].
  unfold BandDepth_predict, predict_loop. rewrite Hfit.
  rewrite loop_counter_shape.
  - destruct (combinations2 (data_matrix dist)) as [| p ps];
      [contradiction |].
    unfold truediv. rewrite map_map. reflexivity.
  - intros p x Hp Hx. apply Hshape; [| exact Hx].
    apply (combinations2_In _ _ Hp).
Qed.

Lemma hits_le (ps : list (ndarray Q * ndarray Q)) (x : ndarray Q) :
  (hits ps x <= length ps)%nat.
Proof. unfold hits. apply filter_length_le. Qed.

Lemma inject_nat_pos (n : nat) : (0 < n)%nat -> 0 < inject_Z (Z.of_nat n).
Proof.
  intros H. change 0 with (inject_Z 0). rewrite <- Zlt_Qlt. lia.
Qed.

Lemma fraction_bounds (h n : nat) :
  (0 < n)%nat -> (h <= n)%nat ->
  0 <= inject_Z (Z.of_nat h) / inject_Z (Z.of_nat n) /\
  inject_Z (Z.of_nat h) / inject_Z (Z.of_nat n) <= 1.
Proof.
  intros Hn Hh. pose proof (inject_nat_pos n Hn) as Hpos. split.
  - apply Qle_shift_div_l; [exact Hpos |].
    rewrite Qmult_0_l. change 0 with (inject_Z 0). rewrite <- Zle_Qle. lia.
  - apply Qle_shift_div_r; [exact Hpos |].
    rewrite Qmult_1_l. rewrite <- Zle_Qle. lia.
Qed.

(** X1.  Every band depth that [predict] returns lies in [0, 1], and
    there is one for each query. *)
Theorem BandDepth_predict_unit_interval
    (self : BandDepth) (dist X : FDataGrid) :
  _distribution self = Some dist ->
  (2 <= length (data_matrix dist))%nat ->
  (forall f x, In f (data_matrix dist) -> In x (data_matrix X) ->
               shape f = shape x) ->
  exists depths,
    BandDepth_predict self X = inr (FloatArray depths) /\
    length depths = length (data_matrix X) /\
    Forall (fun v => 0 <= v /\ v <= 1) depths.
Proof.
  intros Hfit HN Hshape.
  destruct (BandDepth_predict_hits self dist X Hfit HN Hshape) as [Hne Hp].
  eexists. split; [exact Hp |]. split; [apply length_map |].
  apply Forall_forall. intros v Hv. apply in_map_iff in Hv.
  destruct Hv as [x [<- _]]. apply fraction_bounds.
  - destruct (combinations2 (data_matrix dist)); [contradiction |].
    simpl. lia.
  - apply hits_le.
Qed.

Lemma BandDepth_predict_unit_interval_witness :
  exists depths,
    BandDepth_predict {| _distribution := Some example_fd |} example_fd
    = inr (FloatArray depths) /\
    length depths = length (data_matrix example_fd) /\
    Forall (fun v => 0 <= v /\ v <= 1) depths.
Proof.
  apply (BandDepth_predict_unit_interval
           {| _distribution := Some example_fd |} example_fd example_fd).
  - reflexivity.
  - simpl. lia.
  - intros f x Hf Hx. simpl in Hf, Hx.
    repeat (destruct Hf as [<- | Hf]; [| try contradiction]);
      repeat (destruct Hx as [<- | Hx]; [| try contradiction]);
      reflexivity.
Defined.

(** The band of a pair does not depend on the order of the pair. *)
Lemma in_band_dec_sym (x f1 f2 : ndarray Q) :
  in_band_dec x f1 f2 = in_band_dec x f2 f1.
Proof.
  unfold in_band_dec. apply forallb_pointwise. intros ix.
  rewrite <- !between_bool. apply orb_comm.
Qed.

Lemma hits_cons (p : ndarray Q * ndarray Q) ps (x : ndarray Q) :
  hits (p :: ps) x
  = ((if in_band_dec x (fst p) (snd p) then 1 else 0) + hits ps x)%nat.
Proof.
  unfold hits. simpl. destruct (in_band_dec x (fst p) (snd p)); reflexivity.
Qed.

Lemma hits_app (ps qs : list (ndarray Q * ndarray Q)) (x : ndarray Q) :
  hits (ps ++ qs) x = (hits ps x + hits qs x)%nat.
Proof. unfold hits. rewrite filter_app, length_app. reflexivity. Qed.

Lemma hits_permutation (ps qs : list (ndarray Q * ndarray Q)) (x : ndarray Q) :
  Permutation ps qs -> hits ps x = hits qs x.
Proof.
  induction 1 as [| p ps qs _ IH | p q ps | ps qs rs _ IH1 _ IH2].
  - reflexivity.
  - rewrite !hits_cons, IH. reflexivity.
  - rewrite !hits_cons. lia.
  - congruence.
Qed.

Lemma hits_combinations2_permutation (l l' : list (ndarray Q)) (x : ndarray Q) :
  Permutation l l' -> hits (combinations2 l) x = hits (combinations2 l') x.
Proof.
  induction 1 as [| a l l' Hl IH | a b l | l l' l'' _ IH1 _ IH2].
  - reflexivity.
  - cbn [combinations2]. rewrite !hits_app, IH.
    rewrite (hits_permutation _ _ x (Permutation_map (pair a) Hl)).
    reflexivity.
  - cbn [combinations2 map]. cbn [app].
    rewrite !hits_cons, !hits_app. cbn [fst snd].
    rewrite (in_band_dec_sym x a b). lia.
  - congruence.
Qed.

(** X2.  The band depths do not depend on the order of the functions in
    the reference sample. *)
Theorem BandDepth_predict_reference_order (dist dist' X : FDataGrid) :
  Permutation (data_matrix dist) (data_matrix dist') ->
  (2 <= length (data_matrix dist))%nat ->
  (forall f x, In f (data_matrix dist) -> In x (data_matrix X) ->
               shape f = shape x) ->
  BandDepth_predict {| _distribution := Some dist |} X
  = BandDepth_predict {| _distribution := Some dist' |} X.
Proof.
  intros Hperm HN Hshape.
  destruct (BandDepth_predict_hits {| _distribution := Some dist |} dist X
              eq_refl HN Hshape) as [_ ->].
  destruct (BandDepth_predict_hits {| _distribution := Some dist' |} dist' X
              eq_refl) as [_ ->].
  - rewrite <- (Permutation_length Hperm). exact HN.
  - intros f x Hf Hx. apply Hshape; [| exact Hx].
    apply (Permutation_in _ (Permutation_sym Hperm) Hf).
  - rewrite !length_combinations2_choose, (Permutation_length Hperm).
    f_equal. f_equal. apply map_ext. intros x.
    rewrite (hits_combinations2_permutation _ _ x Hperm). reflexivity.
Qed.

(** The docstring sample with its curves in the reverse order. *)
Lemma BandDepth_predict_reference_order_witness :
  BandDepth_predict {| _distribution := Some example_fd |} example_fd
  = BandDepth_predict
      {| _distribution :=
           Some {| data_matrix := rev (data_matrix example_fd);
                   grid_points := grid_points example_fd;
                   domain_range := domain_range example_fd;
                   dim_codomain := 1 |} |}
      example_fd.
Proof.
  apply (BandDepth_predict_reference_order example_fd
           {| data_matrix := rev (data_matrix example_fd);
              grid_points := grid_points example_fd;
              domain_range := domain_range example_fd;
              dim_codomain := 1 |} example_fd).
  - apply Permutation_rev.
  - simpl. lia.
  - intros f x Hf Hx. simpl in Hf, Hx.
    repeat (destruct Hf as [<- | Hf]; [| try contradiction]);
      repeat (destruct Hx as [<- | Hx]; [| try contradiction]);
      reflexivity.
Defined.

(** A function lies in every band that it bounds. *)
Lemma in_band_dec_self_l (x f : ndarray Q) : in_band_dec x x f = true.
Proof.
  apply in_band_dec_iff. intros ix _.
  destruct (Qlt_le_dec (item f ix) (item x ix)) as [Hlt | Hle].
  - right. split; [apply Qlt_le_weak; exact Hlt | apply Qle_refl].
  - left. split; [apply Qle_refl | exact Hle].
Qed.

Lemma in_band_dec_self_r (x f : ndarray Q) : in_band_dec x f x = true.
Proof. rewrite in_band_dec_sym. apply in_band_dec_self_l. Qed.

Lemma hits_with_self (x : ndarray Q) (l : list (ndarray Q)) :
  hits (map (pair x) l) x = length l.
Proof.
  induction l as [| f l IH]; [reflexivity |].
  cbn [map]. rewrite hits_cons. cbn [fst snd].
  rewrite in_band_dec_self_l, IH. reflexivity.
Qed.

Lemma hits_with_member (a x : ndarray Q) (l : list (ndarray Q)) :
  In x l -> (1 <= hits (map (pair a) l) x)%nat.
Proof.
  induction l as [| f l IH]; intros Hx; [contradiction |].
  cbn [map]. rewrite hits_cons. cbn [fst snd].
  destruct Hx as [-> | Hx].
  - rewrite in_band_dec_self_r. lia.
  - specialize (IH Hx). lia.
Qed.

Lemma hits_of_member (x : ndarray Q) (l : list (ndarray Q)) :
  In x l -> (length l - 1 <= hits (combinations2 l) x)%nat.
Proof.
  induction l as [| a l IH]; intros Hx; [contradiction |].
  cbn [combinations2 length]. rewrite hits_app.
  destruct Hx as [-> | Hx].
  - rewrite hits_with_self. lia.
  - pose proof (hits_with_member a x l Hx) as H1.
    specialize (IH Hx). destruct l; [contradiction |].
    cbn [length] in *. lia.
Qed.

(** X3.  A query that is one of the [N] reference functions has band
    depth at least 2/N: it lies in the band of each of the [N - 1] pairs
    that it belongs to.  So it is for every function of the sample when
    the depth of the sample in itself is computed. *)
Theorem BandDepth_predict_member (self : BandDepth) (dist X : FDataGrid) :
  _distribution self = Some dist ->
  (2 <= length (data_matrix dist))%nat ->
  (forall f x, In f (data_matrix dist) -> In x (data_matrix X) ->
               shape f = shape x) ->
  (forall x, In x (data_matrix X) -> In x (data_matrix dist)) ->
  exists depths,
    BandDepth_predict self X = inr (FloatArray depths) /\
    Forall (fun v =>
              inject_Z 2 / inject_Z (Z.of_nat (length (data_matrix dist)))
              <= v)
           depths.
Proof.
  intros Hfit HN Hshape Hmem.
  destruct (BandDepth_predict_hits self dist X Hfit HN Hshape) as [Hne Hp].
  eexists. split; [exact Hp |].
  apply Forall_forall. intros v Hv. apply in_map_iff in Hv.
  destruct Hv as [x [<- Hx]].
  pose proof (hits_of_member x _ (Hmem x Hx)) as Hh.
  pose proof (length_combinations2 (data_matrix dist)) as H2.
  set (N := length (data_matrix dist)) in *.
  set (C := length (combinations2 (data_matrix dist))) in *.
  set (h := hits (combinations2 (data_matrix dist)) x) in *.
  assert (HC : (0 < C)%nat) by nia.
  assert (HNq : 0 < inject_Z (Z.of_nat N)) by (apply inject_nat_pos; lia).
  apply Qle_shift_div_l; [apply inject_nat_pos; exact HC |].
  assert (Heq : inject_Z 2 / inject_Z (Z.of_nat N) * inject_Z (Z.of_nat C)
                == inject_Z (2 * Z.of_nat C) / inject_Z (Z.of_nat N)).
  { rewrite inject_Z_mult. field. intros H0. rewrite H0 in HNq.
    apply (Qlt_irrefl 0). exact HNq. }
  rewrite Heq. apply Qle_shift_div_r; [exact HNq |].
  rewrite <- inject_Z_mult, <- Zle_Qle. nia.
Qed.

Lemma BandDepth_predict_member_witness :
  exists depths,
    BandDepth_predict {| _distribution := Some example_fd |} example_fd
    = inr (FloatArray depths) /\
    Forall (fun v =>
              inject_Z 2
              / inject_Z (Z.of_nat (length (data_matrix example_fd)))
              <= v)
           depths.
Proof.
  apply (BandDepth_predict_member
           {| _distribution := Some example_fd |} example_fd example_fd).
  - reflexivity.
  - simpl. lia.
  - intros f x Hf Hx. simpl in Hf, Hx.
    repeat (destruct Hf as [<- | Hf]; [| try contradiction]);
      repeat (destruct Hx as [<- | Hx]; [| try contradiction]);
      reflexivity.
  - intros x Hx. exact Hx.
Defined.

Lemma hits_all (ps : list (ndarray Q * ndarray Q)) (x : ndarray Q) :
  hits ps x = length ps <->
  (forall p, In p ps -> in_band x (fst p) (snd p)).
Proof.
  induction ps as [| p ps IH].
  - split; [intros _ q [] | reflexivity].
  - rewrite hits_cons. cbn [length]. pose proof (hits_le ps x) as Hle.
    destruct (in_band_dec x (fst p) (snd p)) eqn:Hp.
    + split.
      * intros H q [<- | Hq]; [apply in_band_dec_iff; exact Hp |].
        apply IH; [lia | exact Hq].
      * intros H. cbn [Nat.add]. f_equal. apply IH. intros q Hq.
        apply H. right. exact Hq.
    + split; [lia |].
      intros H. specialize (H p (or_introl eq_refl)).
      apply in_band_dec_iff in H. congruence.
Qed.

Lemma hits_none (ps : list (ndarray Q * ndarray Q)) (x : ndarray Q) :
  hits ps x = 0%nat <->
  (forall p, In p ps -> ~ in_band x (fst p) (snd p)).
Proof.
  induction ps as [| p ps IH].
  - split; [intros _ q [] | reflexivity].
  - rewrite hits_cons.
    destruct (in_band_dec x (fst p) (snd p)) eqn:Hp.
    + split; [lia |].
      intros H. exfalso. apply (H p (or_introl eq_refl)).
      apply in_band_dec_iff. exact Hp.
    + split.
      * intros H q [<- | Hq].
        -- intros Hin. apply in_band_dec_iff in Hin. congruence.
        -- apply IH; [lia | exact Hq].
      * intros H. cbn [Nat.add]. apply IH. intros q Hq. apply H.
        right. exact Hq.
Qed.

Lemma fraction_one (h n : nat) :
  (0 < n)%nat ->
  (inject_Z (Z.of_nat h) / inject_Z (Z.of_nat n) == 1 <-> h = n).
Proof.
  intros Hn. pose proof (inject_nat_pos n Hn) as Hpos.
  assert (Hnz : ~ inject_Z (Z.of_nat n) == 0).
  { intros H0. rewrite H0 in Hpos. apply (Qlt_irrefl 0). exact Hpos. }
  split.
  - intros H.
    assert (Hq : inject_Z (Z.of_nat h) == inject_Z (Z.of_nat n)).
    { rewrite <- (Qmult_div_r (inject_Z (Z.of_nat h)) _ Hnz), H.
      ring. }
    apply (proj1 (inject_Z_injective _ _)) in Hq. apply Nat2Z.inj. exact Hq.
  - intros ->. field. exact Hnz.
Qed.

Lemma fraction_zero (h n : nat) :
  (0 < n)%nat ->
  (inject_Z (Z.of_nat h) / inject_Z (Z.of_nat n) == 0 <-> h = 0%nat).
Proof.
  intros Hn. pose proof (inject_nat_pos n Hn) as Hpos.
  assert (Hnz : ~ inject_Z (Z.of_nat n) == 0).
  { intros H0. rewrite H0 in Hpos. apply (Qlt_irrefl 0). exact Hpos. }
  split.
  - intros H.
    assert (Hq : inject_Z (Z.of_nat h) == inject_Z 0).
    { rewrite <- (Qmult_div_r (inject_Z (Z.of_nat h)) _ Hnz), H.
      ring. }
    apply (proj1 (inject_Z_injective _ _)) in Hq.
    apply Nat2Z.inj. exact Hq.
  - intros ->. simpl. field. exact Hnz.
Qed.

(** X4.  The band depth of a query is 1 exactly when the band of every
    pair of reference functions contains it, and 0 exactly when the band
    of none does. *)
Theorem BandDepth_predict_extremes (self : BandDepth) (dist X : FDataGrid) :
  _distribution self = Some dist ->
  (2 <= length (data_matrix dist))%nat ->
  (forall f x, In f (data_matrix dist) -> In x (data_matrix X) ->
               shape f = shape x) ->
  exists depths,
    BandDepth_predict self X = inr (FloatArray depths) /\
    forall i x v,
      nth_error (data_matrix X) i = Some x ->
      nth_error depths i = Some v ->
      (v == 1 <->
       forall p, In p (combinations2 (data_matrix dist)) ->
                 in_band x (fst p) (snd p)) /\
      (v == 0 <->
       forall p, In p (combinations2 (data_matrix dist)) ->
                 ~ in_band x (fst p) (snd p)).
Proof.
  intros Hfit HN Hshape.
  destruct (BandDepth_predict_hits self dist X Hfit HN Hshape) as [Hne Hp].
  eexists. split; [exact Hp |].
  intros i x v Hx Hv. rewrite nth_error_map, Hx in Hv. cbn in Hv.
  injection Hv as <-.
  assert (HC : (0 < length (combinations2 (data_matrix dist)))%nat).
  { destruct (combinations2 (data_matrix dist)); [contradiction |].
    simpl. lia. }
  split.
  - rewrite (fraction_one _ _ HC). apply hits_all.
  - rewrite (fraction_zero _ _ HC). apply hits_none.
Qed.

Lemma BandDepth_predict_extremes_witness :
  exists depths,
    BandDepth_predict {| _distribution := Some example_fd |} example_fd
    = inr (FloatArray depths) /\
    forall i x v,
      nth_error (data_matrix example_fd) i = Some x ->
      nth_error depths i = Some v ->
      (v == 1 <->
       forall p, In p (combinations2 (data_matrix example_fd)) ->
                 in_band x (fst p) (snd p)) /\
      (v == 0 <->
       forall p, In p (combinations2 (data_matrix example_fd)) ->
                 ~ in_band x (fst p) (snd p)).
Proof.
  apply (BandDepth_predict_extremes
           {| _distribution := Some example_fd |} example_fd example_fd).
  - reflexivity.
  - simpl. lia.
  - intros f x Hf Hx. simpl in Hf, Hx.
    repeat (destruct Hf as [<- | Hf]; [| try contradiction]);
      repeat (destruct Hx as [<- | Hx]; [| try contradiction]);
      reflexivity.
Defined.

(** *** Integrated depth *)

Section ObjectsProofs.

Variable mv_depth : Type.
Variable mv_fit : mv_depth -> list (ndarray Q) -> mv_depth.
Variable mv_predict : mv_depth -> list (ndarray Q) -> list (ndarray Q).
Variable mv_max : mv_depth -> Q.
Variable mv_min : mv_depth -> Q.
Variable simps_1d : list Q -> list Q -> Q.
Variable fraiman_muniz : mv_depth.
Variable simplicial : mv_depth.

Local Abbreviation fit := (fit mv_depth mv_fit).
Local Abbreviation predict := (predict mv_depth mv_predict simps_1d).
Local Abbreviation view := (view mv_depth).

(** [fit] on the object is [fit] on its view. *)
Lemma view_fit (h : heap mv_depth) (self : estimator) (X : FDataGrid) :
  view (fst (fit h self X)) (snd (fit h self X))
  = IntegratedDepth_fit mv_depth mv_fit (view h self) X.
Proof.
  unfold DepthObjects.fit, DepthObjects.view, IntegratedDepth_fit, store.
  cbn. rewrite Nat.eqb_refl. reflexivity.
Qed.

(** X5.  Two estimators made by [IntegratedDepth()] share the one
    multivariate depth that is the default value of the parameter: after
    the first is fitted on [X1] and the second on [X2], the multivariate
    depth of the first is the one fitted on [X1] and fitted again on
    [X2], and the first predicts what the second predicts. *)
Theorem IntegratedDepth_default_depth_shared (X1 X2 X : FDataGrid) :
  domain_range X1 <> [] ->
  domain_range X2 <> [] ->
  let a0 := IntegratedDepth_new None in
  let b0 := IntegratedDepth_new None in
  let h1 := fst (fit (heap_at_import mv_depth fraiman_muniz) a0 X1) in
  let a := snd (fit (heap_at_import mv_depth fraiman_muniz) a0 X1) in
  let h2 := fst (fit h1 b0 X2) in
  let b := snd (fit h1 b0 X2) in
  multivariate_depth _ (view h2 a)
  = mv_fit (mv_fit fraiman_muniz (data_matrix X1)) (data_matrix X2) /\
  predict h2 a X = predict h2 b X.
Proof.
  intros H1 H2. cbv zeta. split.
  - reflexivity.
  - unfold DepthObjects.predict, IntegratedDepth_predict. cbn.
    destruct (domain_range X1) as [| d1 r1]; [contradiction |].
    destruct (domain_range X2) as [| d2 r2]; [contradiction |].
    apply integrate_loop_overwrites.
Qed.

(** X6.  Two estimators made by [ModifiedBandDepth()] have a
    multivariate depth each: fitting the second leaves the predictions
    of the first as they were. *)
Theorem ModifiedBandDepth_depth_not_shared
    (h0 : heap mv_depth) (X1 X2 X : FDataGrid) :
  let h1 := fst (ModifiedBandDepth_new mv_depth simplicial h0) in
  let a0 := snd (ModifiedBandDepth_new mv_depth simplicial h0) in
  let h2 := fst (ModifiedBandDepth_new mv_depth simplicial h1) in
  let b0 := snd (ModifiedBandDepth_new mv_depth simplicial h1) in
  let h3 := fst (fit h2 a0 X1) in
  let a := snd (fit h2 a0 X1) in
  let h4 := fst (fit h3 b0 X2) in
  multivariate_depth_at a0 <> multivariate_depth_at b0 /\
  predict h4 a X = predict h3 a X.
Proof.
  cbv zeta. cbn [ModifiedBandDepth_new allocate fst snd IntegratedDepth_new
                 multivariate_depth_at next].
  split; [lia |].
  unfold DepthObjects.predict. f_equal.
  unfold DepthObjects.view, DepthObjects.fit, store, IntegratedDepth_new.
  cbn [fst snd multivariate_depth_at fitted_domain_range fitted_grid_points
       cell next].
  f_equal.
  replace (next _ h0 =? S (next _ h0))%nat with false
    by (symmetry; apply Nat.eqb_neq; lia).
  reflexivity.
Qed.

End ObjectsProofs.

Section CurvesProofs.

Variable mv_depth : Type.
Variable mv_predict : mv_depth -> list (ndarray Q) -> list (ndarray Q).
Variable simps_1d : list Q -> list Q -> Q.

Lemma simps_on_curves (s : list Q) (A : list (ndarray Q)) :
  Forall (fun a => exists rest, shape a = length s :: rest) A ->
  simps simps_1d A s
  = inr (map (fun a =>
                {| shape := tl (shape a);
                   item := fun ix =>
                     simps_1d (map (fun i => item a (i :: ix))
                                   (seq 0 (length s))) s |})
             A).
Proof.
  unfold simps. induction 1 as [| a A [rest Ha] _ IH]; [reflexivity |].
  cbn [traverse map]. rewrite IH. unfold simps_sample. rewrite Ha.
  rewrite Nat.eqb_refl. reflexivity.
Qed.

(** X7.  On a domain of one dimension the integrated depth of a function
    is the quadrature of its pointwise depths on the grid divided by the
    length of the interval, whatever the quadrature. *)
Theorem IntegratedDepth_predict_curves
    (self : IntegratedDepth mv_depth) (X : FDataGrid)
    (d0 d : Q * Q) (rest : list (Q * Q)) (s : list Q) :
  _domain_range _ self = Some (d0 :: rest) ->
  domain_range X = [d] ->
  grid_points X = [s] ->
  Forall (fun a => exists rest', shape a = length s :: rest')
         (mv_predict (multivariate_depth _ self) (data_matrix X)) ->
  IntegratedDepth_predict _ mv_predict simps_1d self X
  = inr (map (fun a =>
                {| shape := tl (shape a);
                   item := fun ix =>
                     simps_1d (map (fun i => item a (i :: ix))
                                   (seq 0 (length s))) s
                     / (snd d - fst d) |})
             (mv_predict (multivariate_depth _ self) (data_matrix X))).
Proof.
  intros Hfit Hd Hs Hshape. unfold IntegratedDepth_predict.
  rewrite Hfit, Hd, Hs. cbn [combine integrate_loop].
  rewrite (simps_on_curves s _ Hshape). cbn [bind].
  unfold idiv. rewrite map_map. reflexivity.
Qed.

End CurvesProofs.

Lemma IntegratedDepth_predict_curves_witness :
  IntegratedDepth_predict unit (fun _ l => l) simpson3
    (IntegratedDepth_fit unit (fun _ _ => tt)
       (IntegratedDepth_init unit tt) example_fd)
    {| data_matrix := [of_list [1; 2; 4]];
       grid_points := [[0; 1; 2]];
       domain_range := [(0, 2)];
       dim_codomain := 1 |}
  = inr (map (fun a =>
                {| shape := tl (shape a);
                   item := fun ix =>
                     simpson3 (map (fun i => item a (i :: ix))
                                   (seq 0 (length [0; 1; 2]))) [0; 1; 2]
                     / (snd (0, 2) - fst (0, 2)) |})
             [of_list [1; 2; 4]]).
Proof.
  apply (IntegratedDepth_predict_curves unit (fun _ l => l) simpson3
           (IntegratedDepth_fit unit (fun _ _ => tt)
              (IntegratedDepth_init unit tt) example_fd)
           {| data_matrix := [of_list [1; 2; 4]];
              grid_points := [[0; 1; 2]];
              domain_range := [(0, 2)];
              dim_codomain := 1 |}
           (0, 10) (0, 2) [] [0; 1; 2]).
  - reflexivity.
  - reflexivity.
  - reflexivity.
  - repeat constructor. exists [1%nat]. reflexivity.
Defined.

Lemma IntegratedDepth_default_depth_shared_witness :
  multivariate_depth _
    (view unit
       (fst (fit unit (fun _ _ => tt)
               (fst (fit unit (fun _ _ => tt) (heap_at_import unit tt)
                       (IntegratedDepth_new None) example_fd))
               (IntegratedDepth_new None) example_fd2))
       (snd (fit unit (fun _ _ => tt) (heap_at_import unit tt)
               (IntegratedDepth_new None) example_fd)))
  = tt /\
  predict unit (fun _ l => l) simpson3
    (fst (fit unit (fun _ _ => tt)
            (fst (fit unit (fun _ _ => tt) (heap_at_import unit tt)
                    (IntegratedDepth_new None) example_fd))
            (IntegratedDepth_new None) example_fd2))
    (snd (fit unit (fun _ _ => tt) (heap_at_import unit tt)
            (IntegratedDepth_new None) example_fd))
    example_fd2
  = predict unit (fun _ l => l) simpson3
      (fst (fit unit (fun _ _ => tt)
              (fst (fit unit (fun _ _ => tt) (heap_at_import unit tt)
                      (IntegratedDepth_new None) example_fd))
              (IntegratedDepth_new None) example_fd2))
      (snd (fit unit (fun _ _ => tt)
              (fst (fit unit (fun _ _ => tt) (heap_at_import unit tt)
                      (IntegratedDepth_new None) example_fd))
              (IntegratedDepth_new None) example_fd2))
      example_fd2.
Proof.
  apply (IntegratedDepth_default_depth_shared unit (fun _ _ => tt)
           (fun _ l => l) simpson3 tt example_fd example_fd2 example_fd2);
    discriminate.
Defined.

Lemma indices_cons_in (i n : nat) (ix : list nat) (s : list nat) :
  (i < n)%nat -> In ix (indices s) -> In (i :: ix) (indices (n :: s)).
Proof.
  intros Hi Hix. cbn [indices]. apply in_flat_map. exists i. split.
  - apply in_seq. lia.
  - apply in_map. exact Hix.
Qed.

Section BoundsProofs.

Variable mv_depth : Type.
Variable mv_predict : mv_depth -> list (ndarray Q) -> list (ndarray Q).
Variable mv_max : mv_depth -> Q.
Variable mv_min : mv_depth -> Q.
Variable simps_1d : list Q -> list Q -> Q.

Lemma simps_sample_within (lo hi : Q) (d : Q * Q) (s : list Q)
    (grids : list (list Q)) (a : ndarray Q) :
  quadrature_within simps_1d d s ->
  has_grid_shape (s :: grids) a ->
  entries_within lo hi a ->
  exists a1,
    simps_sample simps_1d s a = inr a1 /\
    has_grid_shape grids (true_divide a1 (snd d - fst d)) /\
    entries_within lo hi (true_divide a1 (snd d - fst d)).
Proof.
  intros [Hlt Hq] [rest Ha] Hin. cbn [map app] in Ha.
  unfold simps_sample. rewrite Ha, Nat.eqb_refl. cbn [negb].
  eexists. split; [reflexivity |]. split; [exists rest; reflexivity |].
  intros ix Hix. cbn [true_divide shape item] in *.
  assert (Hlen : 0 < snd d - fst d).
  { unfold Qminus. apply (proj1 (Qlt_minus_iff _ _)). exact Hlt. }
  destruct (Hq (map (fun i => item a (i :: ix)) (seq 0 (length s))) lo hi)
    as [Hlo Hhi].
  - rewrite length_map, length_seq. reflexivity.
  - apply Forall_forall. intros v Hv. apply in_map_iff in Hv.
    destruct Hv as [i [<- Hi]]. apply in_seq in Hi.
    apply Hin. rewrite Ha. apply indices_cons_in; [lia | exact Hix].
  - split.
    + apply Qle_shift_div_l; assumption.
    + apply Qle_shift_div_r; assumption.
Qed.

Lemma simps_within (lo hi : Q) (d : Q * Q) (s : list Q)
    (grids : list (list Q)) (A : list (ndarray Q)) :
  quadrature_within simps_1d d s ->
  Forall (has_grid_shape (s :: grids)) A ->
  Forall (entries_within lo hi) A ->
  exists A1,
    simps simps_1d A s = inr A1 /\
    Forall (has_grid_shape grids) (idiv A1 (snd d - fst d)) /\
    Forall (entries_within lo hi) (idiv A1 (snd d - fst d)).
Proof.
  intros Hq Hshape. unfold simps.
  induction Hshape as [| a A Ha _ IH]; intros Hin.
  - exists []. repeat split; constructor.
  - inversion Hin as [| a' A' Hain HAin]; subst.
    destruct (simps_sample_within lo hi d s grids a Hq Ha Hain)
      as [a1 [Ha1 [Hs1 Hw1]]].
    destruct (IH HAin) as [A1 [HA1 [HS1 HW1]]].
    cbn [traverse]. rewrite Ha1. cbn [bind]. rewrite HA1. cbn [bind].
    eexists. split; [reflexivity |].
    split; constructor; assumption.
Qed.

(** The invariant of the loop of [predict]: the entries of the integrand
    stay between the bounds. *)
Lemma integrate_loop_within (lo hi : Q) :
  forall ds (A : list (ndarray Q)) (l0 : Q),
    (forall d s, In (d, s) ds -> quadrature_within simps_1d d s) ->
    Forall (has_grid_shape (map snd ds)) A ->
    Forall (entries_within lo hi) A ->
    exists R,
      integrate_loop simps_1d ds A l0 = inr R /\
      Forall (entries_within lo hi) R.
Proof.
  induction ds as [| [d s] ds IH]; intros A l0 Hq Hshape Hin.
  - exists A. split; [reflexivity | exact Hin].
  - cbn [map snd] in Hshape.
    destruct (simps_within lo hi d s (map snd ds) A
                (Hq d s (or_introl eq_refl)) Hshape Hin)
      as [A1 [HA1 [HS1 HW1]]].
    cbn [integrate_loop]. rewrite HA1. cbn [bind].
    apply IH; [| exact HS1 | exact HW1].
    intros d' s' H. apply Hq. right. exact H.
Qed.

(** X8.  The properties [max] and [min] of the estimator are those of its
    multivariate depth, and they bound what [predict] returns: when the
    pointwise depths lie between them, and the quadrature on each grid
    keeps samples between two bounds within the bounds times the length
    of the interval, every integrated depth lies between [min] and
    [max]. *)
Theorem IntegratedDepth_predict_within_min_max
    (h : heap mv_depth) (self : estimator) (X : FDataGrid)
    (d0 : Q * Q) (rest : list (Q * Q)) :
  fitted_domain_range self = Some (d0 :: rest) ->
  length (domain_range X) = length (grid_points X) ->
  (forall d s, In (d, s) (combine (domain_range X) (grid_points X)) ->
               quadrature_within simps_1d d s) ->
  Forall (has_grid_shape (grid_points X))
         (mv_predict (cell _ h (multivariate_depth_at self)) (data_matrix X)) ->
  Forall (entries_within (min _ mv_min h self) (max _ mv_max h self))
         (mv_predict (cell _ h (multivariate_depth_at self)) (data_matrix X)) ->
  exists result,
    predict _ mv_predict simps_1d h self X = inr result /\
    Forall (entries_within (min _ mv_min h self) (max _ mv_max h self))
           result.
Proof.
  intros Hfit Hzip Hq Hshape Hin.
  unfold predict, IntegratedDepth_predict.
  cbn [view _domain_range multivariate_depth]. rewrite Hfit.
  apply integrate_loop_within; [exact Hq | | exact Hin].
  rewrite combine_snd by exact Hzip. exact Hshape.
Qed.

End BoundsProofs.

Import Lqa.

Lemma weighted3_within (w0 w1 w2 len : Q) :
  0 <= w0 -> 0 <= w1 -> 0 <= w2 -> w0 + w1 + w2 == len ->
  forall (y : list Q) (lo hi : Q),
    length y = 3%nat ->
    Forall (fun v => lo <= v /\ v <= hi) y ->
    lo * len <= weighted_sum [w0; w1; w2] y /\
    weighted_sum [w0; w1; w2] y <= hi * len.
Proof.
  intros H0 H1 H2 Hsum y lo hi Hlen Hy.
  destruct y as [| a [| b [| c [| e y]]]]; try discriminate.
  inversion Hy as [| ? ? [Ha Ha'] Hy1]; subst.
  inversion Hy1 as [| ? ? [Hb Hb'] Hy2]; subst.
  inversion Hy2 as [| ? ? [Hc Hc'] _]; subst.
  cbn [weighted_sum]. rewrite <- Hsum. split; nra.
Qed.

Lemma simpson3_within_0_1_2 : quadrature_within simpson3 (0, 2) [0; 1; 2].
Proof.
  split; [reflexivity |]. intros y lo hi Hlen Hy. unfold simpson3.
  change (simpson3_weights [0; 1; 2])
    with [ (1 - 0 + (2 - 1)) / 6 * (2 - (2 - 1) / (1 - 0));
           (1 - 0 + (2 - 1)) / 6
           * ((1 - 0 + (2 - 1)) * (1 - 0 + (2 - 1)) / ((1 - 0) * (2 - 1)));
           (1 - 0 + (2 - 1)) / 6 * (2 - (1 - 0) / (2 - 1)) ].
  apply weighted3_within; try exact Hlen; try exact Hy;
    vm_compute; try discriminate; reflexivity.
Qed.

Lemma simpson3_within_0_2_4 : quadrature_within simpson3 (0, 4) [0; 2; 4].
Proof.
  split; [reflexivity |]. intros y lo hi Hlen Hy. unfold simpson3.
  change (simpson3_weights [0; 2; 4])
    with [ (2 - 0 + (4 - 2)) / 6 * (2 - (4 - 2) / (2 - 0));
           (2 - 0 + (4 - 2)) / 6
           * ((2 - 0 + (4 - 2)) * (2 - 0 + (4 - 2)) / ((2 - 0) * (4 - 2)));
           (2 - 0 + (4 - 2)) / 6 * (2 - (2 - 0) / (4 - 2)) ].
  apply weighted3_within; try exact Hlen; try exact Hy;
    vm_compute; try discriminate; reflexivity.
Qed.

(** The surface of the examples, whose values lie between 0 and 8, as
    its own pointwise depth. *)
Lemma IntegratedDepth_predict_within_min_max_witness :
  exists result,
    predict unit (fun _ l => l) simpson3 (heap_at_import unit tt)
      (snd (fit unit (fun _ _ => tt) (heap_at_import unit tt)
              (IntegratedDepth_new None) example_fd2))
      example_fd2
    = inr result /\
    Forall (entries_within 0 8) result.
Proof.
  apply (IntegratedDepth_predict_within_min_max unit (fun _ l => l)
           (fun _ => 8) (fun _ => 0) simpson3 (heap_at_import unit tt)
           (snd (fit unit (fun _ _ => tt) (heap_at_import unit tt)
                   (IntegratedDepth_new None) example_fd2))
           example_fd2 (0, 2) [(0, 4)]).
  - reflexivity.
  - reflexivity.
  - intros d s Hds. cbn in Hds.
    destruct Hds as [Hds | [Hds | []]]; injection Hds as <- <-.
    + exact simpson3_within_0_1_2.
    + exact simpson3_within_0_2_4.
  - repeat constructor. exists []. reflexivity.
  - apply Forall_cons; [| apply Forall_nil]. intros ix Hix. cbn in Hix.
    repeat (destruct Hix as [<- | Hix]; [vm_compute; split; discriminate |]).
    contradiction.
Defined.

End DepthExtras.

(** ** Further properties of the elastic metrics *)

Module ElasticExtras.

Import Elastic ElasticFormulas ElasticProofs.
Local Open Scope R_scope.

Section MetricsExtras.

Variable _cast_to_grid :
  FDataGrid -> FDataGrid -> exception + (FDataGrid * FDataGrid).
Variable _normalize_scale : list R -> list R.
Variable normalize_warping : FDataGrid -> R * R -> FDataGrid.
Variable derivative : FDataGrid -> FDataGrid.
Variable evaluate : FDataGrid -> list R -> list (list R).
Variable elastic_registration :
  FDataGrid -> R -> list R -> FDataGrid -> FDataGrid * FDataGrid.
Variable simps_1d : list R -> list R -> R.

Local Abbreviation warping_distance :=
  (warping_distance _cast_to_grid normalize_warping derivative simps_1d).
Local Abbreviation phase_distance :=
  (phase_distance _cast_to_grid _normalize_scale derivative evaluate
     elastic_registration simps_1d).
Local Abbreviation amplitude_distance :=
  (amplitude_distance _cast_to_grid _normalize_scale derivative evaluate
     elastic_registration simps_1d).
Local Abbreviation warping_derivative_on_grid :=
  (warping_derivative_on_grid _normalize_scale derivative evaluate
     elastic_registration).
Local Abbreviation registered_distances :=
  (registered_distances _normalize_scale derivative elastic_registration
     simps_1d).

Lemma phase_distance_quadrature
    (f1 f2 c1 c2 : FDataGrid) (lam : R) row rest :
  _cast_to_grid f1 f2 = inr (c1, c2) ->
  warping_derivative_on_grid c1 c2 lam = row :: rest ->
  length (_normalize_scale (grid_points c1)) = length row ->
  Forall (fun t => 0 <= t) row ->
  phase_distance f1 f2 lam
  = inr (np_arccos
           (np_clip (Fin (simps_1d (map sqrt row)
                            (_normalize_scale (grid_points c1))))
                    (-1) 1)).
Proof.
  unfold Elastic.phase_distance, Elastic.warping_derivative_on_grid.
  intros Hc Hrow Hg Hpos. rewrite Hc. cbn [bind].
  destruct (elastic_registration _ lam _ _) as [reg w]. cbn [snd] in Hrow.
  rewrite Hrow. cbn [first_row bind]. unfold simps.
  rewrite !length_map, Hg, Nat.eqb_refl. cbn [negb].
  rewrite (sqrt_row_nonneg row Hpos), (all_finite_map sqrt).
  reflexivity.
Qed.

(** X9.  When no value of the derivative of the warping on the grid is
    negative, [phase_distance] returns arccos(d), for d the quadrature of
    the square roots of these values clamped into [-1, 1]. *)
Theorem phase_distance_steps (f1 f2 c1 c2 : FDataGrid) (lam : R) row rest :
  _cast_to_grid f1 f2 = inr (c1, c2) ->
  warping_derivative_on_grid c1 c2 lam = row :: rest ->
  length (_normalize_scale (grid_points c1)) = length row ->
  Forall (fun t => 0 <= t) row ->
  phase_distance f1 f2 lam
  = inr (Fin (acos (clamp (simps_1d (map sqrt row)
                             (_normalize_scale (grid_points c1)))))).
Proof.
  intros Hc Hrow Hg Hpos.
  rewrite (phase_distance_quadrature f1 f2 c1 c2 lam row rest)
    by assumption.
  rewrite arccos_of_clip. reflexivity.
Qed.

Lemma penalty_row (row : list R) :
  Forall (fun t => 0 <= t) row ->
  map (fun v => lift2 Rmult v v)
      (map (fun v => lift2 Rminus v (Fin 1)) (map np_sqrt (map Fin row)))
  = map (fun t => Fin ((sqrt t - 1) * (sqrt t - 1))) row.
Proof.
  intros Hpos. rewrite (sqrt_row_nonneg row Hpos), !map_map. reflexivity.
Qed.

(** X10.  With the penalty 0, [amplitude_distance] returns the L2
    distances between the SRSF of the registered function and of the
    template, and nothing of the warping is computed.  With another
    penalty, no negative value of the derivative of the warping on the
    grid, and a product of the penalty and its quadrature that is not
    negative, it returns sqrt(distance^2 + lam * penalty) for each. *)
Theorem amplitude_distance_steps (f1 f2 c1 c2 : FDataGrid) (lam : R) :
  _cast_to_grid f1 f2 = inr (c1, c2) ->
  (lam = 0 ->
   amplitude_distance f1 f2 lam
   = inr (map Fin (registered_distances c1 c2 lam))) /\
  (forall row rest,
      lam <> 0 ->
      warping_derivative_on_grid c1 c2 lam = row :: rest ->
      length (_normalize_scale (grid_points c1)) = length row ->
      Forall (fun t => 0 <= t) row ->
      0 <= lam * warping_penalty simps_1d row
                   (_normalize_scale (grid_points c1)) ->
      amplitude_distance f1 f2 lam
      = inr (map (fun d =>
                    Fin (sqrt (d * d
                               + lam * warping_penalty simps_1d row
                                         (_normalize_scale (grid_points c1)))))
                 (registered_distances c1 c2 lam))).
Proof.
  intros Hc.
  unfold Elastic.amplitude_distance, Elastic.warping_derivative_on_grid,
    ElasticFormulas.registered_distances, warping_penalty.
  rewrite Hc. cbn [bind].
  destruct (elastic_registration _ lam _ _) as [reg w].
  cbn [fst snd SRSF_fit_transform]. split.
  - intros Hlam. destruct (Req_dec_T lam 0) as [_ | Hn]; [| contradiction].
    reflexivity.
  - intros row rest Hlam Hrow Hg Hpos Hpen.
    destruct (Req_dec_T lam 0) as [H0 | _]; [contradiction |].
    rewrite Hrow. cbn [first_row bind]. rewrite (penalty_row row Hpos).
    unfold simps. rewrite length_map, Hg, Nat.eqb_refl. cbn [negb].
    rewrite (all_finite_map (fun t => (sqrt t - 1) * (sqrt t - 1))).
    cbn [bind]. rewrite map_map. f_equal. apply map_ext. intros d.
    cbn [lift2]. unfold np_sqrt.
    destruct (Rlt_dec _ 0) as [Hneg | _]; [| reflexivity].
    exfalso. nra.
Qed.

Lemma multiply_comm (a b : list float64) :
  np_multiply a b = np_multiply b a.
Proof.
  unfold np_multiply. rewrite (Nat.eqb_sym (length b) (length a)).
  destruct (length a =? length b)%nat; cbn [negb]; [| reflexivity].
  f_equal. apply map_combine_swap. intros [x |] [y |]; cbn [fst snd lift2];
    try reflexivity.
  f_equal. ring.
Qed.

Lemma multiply_length (a b p : list float64) :
  np_multiply a b = inr p -> length p = length a /\ length p = length b.
Proof.
  unfold np_multiply.
  destruct (length a =? length b)%nat eqn:H; cbn [negb]; [| discriminate].
  apply Nat.eqb_eq in H. intros Hp. injection Hp as <-.
  rewrite length_map, length_combine, <- H, Nat.min_id. split; congruence.
Qed.

(** X11.  [warping_distance] is symmetric, in its value and in its
    errors, for two warpings that [_cast_to_grid] returns in the order
    in which it is given them and that have one grid once normalized. *)
Theorem warping_distance_symmetric (w1 w2 c1 c2 : FDataGrid) :
  _cast_to_grid w1 w2 = inr (c1, c2) ->
  _cast_to_grid w2 w1 = inr (c2, c1) ->
  grid_points (normalize_warping c1 (0, 1))
  = grid_points (normalize_warping c2 (0, 1)) ->
  warping_distance w1 w2 = warping_distance w2 w1.
Proof.
  intros H12 H21 Hg. unfold Elastic.warping_distance.
  rewrite H12, H21. cbn [bind]. rewrite Hg.
  destruct (data_matrix (derivative (normalize_warping c1 (0, 1))))
    as [| d1 r1];
    destruct (data_matrix (derivative (normalize_warping c2 (0, 1))))
      as [| d2 r2]; cbn [first_row bind]; try reflexivity.
  rewrite (multiply_comm
             (map np_sqrt (zero_negatives (map Fin d1)))
             (map np_sqrt (zero_negatives (map Fin d2)))).
  reflexivity.
Qed.

Lemma unit_row_nonneg (row : list R) :
  Forall (fun t => t = 1) row -> Forall (fun t => 0 <= t) row.
Proof.
  intros H. apply Forall_forall. intros t Ht. rewrite Forall_forall in H.
  rewrite (H t Ht). lra.
Qed.

Lemma unit_row_sqrt (row : list R) :
  Forall (fun t => t = 1) row -> map sqrt row = row.
Proof.
  intros H. rewrite <- (map_id row) at 2. apply map_ext_in. intros t Ht.
  rewrite Forall_forall in H. rewrite (H t Ht). apply sqrt_1.
Qed.

(** X12.  When the registration finds a warping whose derivative is 1 at
    every grid point, and the quadrature of the constant 1 on the
    normalized grid is 1, the phase distance is 0. *)
Theorem phase_distance_identity_warping
    (f1 f2 c1 c2 : FDataGrid) (lam : R) row rest :
  _cast_to_grid f1 f2 = inr (c1, c2) ->
  warping_derivative_on_grid c1 c2 lam = row :: rest ->
  length (_normalize_scale (grid_points c1)) = length row ->
  Forall (fun t => t = 1) row ->
  simps_1d row (_normalize_scale (grid_points c1)) = 1 ->
  phase_distance f1 f2 lam = inr (Fin 0).
Proof.
  intros Hc Hrow Hg Hone Hq.
  rewrite (phase_distance_quadrature f1 f2 c1 c2 lam row rest)
    by (assumption || apply unit_row_nonneg; assumption).
  rewrite arccos_of_clip, (unit_row_sqrt row Hone), Hq.
  destruct (clamp_cases 1) as [[H _] | [[_ ->] | [H _]]]; try lra.
  rewrite acos_1. reflexivity.
Qed.

Lemma srsf_product_with_unit_row :
  forall (row ones : list R),
    length ones = length row ->
    Forall (fun t => 0 <= t) row ->
    Forall (fun t => t = 1) ones ->
    srsf_product row ones = map sqrt row.
Proof.
  unfold srsf_product.
  induction row as [| t row IH]; intros [| u ones] Hlen Hpos Hone;
    try discriminate; [reflexivity |].
  inversion Hpos; subst. inversion Hone; subst.
  cbn [combine map fst snd]. f_equal.
  - unfold floored_srsf. rewrite (Rmax_right 0 t), (Rmax_right 0 1) by lra.
    rewrite sqrt_1. ring.
  - apply IH; [simpl in Hlen; lia | assumption | assumption].
Qed.

(** X13.  The phase distance is the warping-space distance between the
    warping that the registration finds and the identity: for a warping
    [w] with the derivative values of the registration's warping on the
    normalized grid, none of them negative, and a warping [id] with the
    derivative 1 at every grid point, [phase_distance f1 f2] is
    [warping_distance w id]. *)
Theorem phase_distance_is_warping_distance_to_identity
    (f1 f2 c1 c2 w id cw cid : FDataGrid) (lam : R)
    (row ones : list R) (rest rw rid : list (list R)) :
  _cast_to_grid f1 f2 = inr (c1, c2) ->
  warping_derivative_on_grid c1 c2 lam = row :: rest ->
  length (_normalize_scale (grid_points c1)) = length row ->
  Forall (fun t => 0 <= t) row ->
  _cast_to_grid w id = inr (cw, cid) ->
  data_matrix (derivative (normalize_warping cw (0, 1))) = row :: rw ->
  data_matrix (derivative (normalize_warping cid (0, 1))) = ones :: rid ->
  length ones = length row ->
  Forall (fun t => t = 1) ones ->
  grid_points (normalize_warping cw (0, 1))
  = _normalize_scale (grid_points c1) ->
  phase_distance f1 f2 lam = warping_distance w id.
Proof.
  intros Hc Hrow Hg Hpos Hcw Hw Hid Hlen Hone Hgrid.
  rewrite (phase_distance_quadrature f1 f2 c1 c2 lam row rest)
    by assumption.
  rewrite (warping_distance_quadrature _cast_to_grid normalize_warping
             derivative simps_1d w id cw cid row rw ones rid)
    by (assumption || (symmetry; assumption) || congruence).
  rewrite Hgrid, (srsf_product_with_unit_row row ones) by assumption.
  reflexivity.
Qed.

End MetricsExtras.

(** The collaborators of the examples: second-order differences,
    Simpson's rule, and a registration that finds a given warping. *)
Local Abbreviation phase_distance_finding w :=
  (phase_distance cast_same_grid scale_unit second_order_derivative
     evaluate_on_grid (registration_finding w) simpson3).
Local Abbreviation amplitude_distance_finding w :=
  (amplitude_distance cast_same_grid scale_unit second_order_derivative
     evaluate_on_grid (registration_finding w) simpson3).
Local Abbreviation warping_distance_3 :=
  (warping_distance cast_same_grid warping_unit second_order_derivative
     simpson3).

Ltac each_entry tac :=
  repeat (apply Forall_cons; [tac |]); apply Forall_nil.

(** The derivative values of the mild warping: 7/5, 1, 3/5. *)
Lemma mild_warping_increasing :
  Forall (fun t => 0 <= t)
         (second_order_differences [0; 3 / 5; 1] [0; 1 / 2; 1]).
Proof.
  cbn [second_order_differences].
  each_entry ltac:(unfold Rdiv; apply Rle_mult_inv_pos; lra).
Qed.

Lemma identity_warping_unit_speed :
  Forall (fun t => t = 1)
         (second_order_differences [0; 1 / 2; 1] [0; 1 / 2; 1]).
Proof.
  cbn [second_order_differences]. each_entry ltac:(field).
Qed.

Lemma phase_distance_steps_witness :
  phase_distance_finding mild_warping ramp ramp 1
  = inr (Fin (acos (clamp
                      (simpson3
                         (map sqrt (second_order_differences [0; 3 / 5; 1]
                                                             [0; 1 / 2; 1]))
                         [0; 1 / 2; 1])))).
Proof.
  apply (phase_distance_steps cast_same_grid scale_unit
           second_order_derivative evaluate_on_grid
           (registration_finding mild_warping) simpson3
           ramp ramp ramp ramp 1
           (second_order_differences [0; 3 / 5; 1] [0; 1 / 2; 1]) []).
  - reflexivity.
  - reflexivity.
  - reflexivity.
  - exact mild_warping_increasing.
Defined.

Lemma amplitude_distance_steps_witness :
  amplitude_distance_finding mild_warping ramp ramp 0
  = inr (map Fin
           (registered_distances scale_unit second_order_derivative
              (registration_finding mild_warping) simpson3 ramp ramp 0)) /\
  amplitude_distance_finding mild_warping ramp ramp 1
  = inr (map (fun d =>
                Fin (sqrt (d * d
                           + 1 * warping_penalty simpson3
                                   (second_order_differences [0; 3 / 5; 1]
                                                             [0; 1 / 2; 1])
                                   [0; 1 / 2; 1])))
             (registered_distances scale_unit second_order_derivative
                (registration_finding mild_warping) simpson3 ramp ramp 1)).
Proof.
  split.
  - apply (proj1 (amplitude_distance_steps cast_same_grid scale_unit
                    second_order_derivative evaluate_on_grid
                    (registration_finding mild_warping) simpson3
                    ramp ramp ramp ramp 0 eq_refl)).
    reflexivity.
  - apply (proj2 (amplitude_distance_steps cast_same_grid scale_unit
                    second_order_derivative evaluate_on_grid
                    (registration_finding mild_warping) simpson3
                    ramp ramp ramp ramp 1 eq_refl)
             (second_order_differences [0; 3 / 5; 1] [0; 1 / 2; 1]) []).
    + lra.
    + reflexivity.
    + reflexivity.
    + exact mild_warping_increasing.
    + rewrite Rmult_1_l. unfold warping_penalty.
      apply simpson3_nonneg_equally_spaced.
      apply Forall_forall. intros v Hv. apply in_map_iff in Hv.
      destruct Hv as [t [<- _]]. apply (Rle_0_sqr (sqrt t - 1)).
Defined.

Lemma warping_distance_symmetric_witness :
  warping_distance_3 early_warping late_warping
  = warping_distance_3 late_warping early_warping.
Proof.
  apply (warping_distance_symmetric cast_same_grid warping_unit
           second_order_derivative simpson3
           early_warping late_warping early_warping late_warping);
    reflexivity.
Defined.

Lemma phase_distance_identity_warping_witness :
  phase_distance_finding identity_warping ramp ramp 1 = inr (Fin 0).
Proof.
  apply (phase_distance_identity_warping cast_same_grid scale_unit
           second_order_derivative evaluate_on_grid
           (registration_finding identity_warping) simpson3
           ramp ramp ramp ramp 1
           (second_order_differences [0; 1 / 2; 1] [0; 1 / 2; 1]) []).
  - reflexivity.
  - reflexivity.
  - reflexivity.
  - exact identity_warping_unit_speed.
  - cbn [ramp scale_unit grid_points second_order_differences simpson3
         simpson3_weights weighted_sum]. field.
Defined.

Lemma phase_distance_is_warping_distance_to_identity_witness :
  phase_distance_finding mild_warping ramp ramp 1
  = warping_distance_3 mild_warping identity_warping.
Proof.
  apply (phase_distance_is_warping_distance_to_identity
           cast_same_grid scale_unit warping_unit second_order_derivative
           evaluate_on_grid (registration_finding mild_warping) simpson3
           ramp ramp ramp ramp
           mild_warping identity_warping mild_warping identity_warping 1
           (second_order_differences [0; 3 / 5; 1] [0; 1 / 2; 1])
           (second_order_differences [0; 1 / 2; 1] [0; 1 / 2; 1]) [] [] []).
  - reflexivity.
  - reflexivity.
  - reflexivity.
  - exact mild_warping_increasing.
  - reflexivity.
  - reflexivity.
  - reflexivity.
  - reflexivity.
  - exact identity_warping_unit_speed.
  - reflexivity.
Defined.

End ElasticExtras.
